(** * similar-files: the index builder and the similarity query

    A shallow embedding of [scripts/shared.mjs], [scripts/index-workspace.mjs]
    and the query script (find-similar), followed by the properties of the
    ranking loop, the sparse encoding, the index loader, the directory
    traversal, the build loop and the command lines.

    Conventions of the embedding.
    - A JavaScript number is a rational or [NaN].  Finite doubles are read as
      the rationals they denote and arithmetic on them is exact; the two
      infinities are not represented.  The scripts round a product to a
      double before [Math.round] sees it, so that a value within one rounding
      error of a half-way point can go to the other side there.  Of the two
      roundings the properties use that they are monotone and that rounding
      twice is rounding once, which is true of the doubles as well; none says
      how far a rounded value lies from the value it came from, and the
      examples round values that are far from a half-way point.
    - A JavaScript string is a [string]; an object used as a map is a
      [gmap]; an array is a [list].
    - [async] functions are run to completion: a call either returns, throws
      or ends the process, and the file system and the error stream are
      threaded through as state.
    - The modules the scripts import ([node:path], [@watthem/quarrel]) and the
      built-ins whose text processing is irrelevant here (JSON, regular
      expressions, case folding) are interfaces; every theorem holds for all
      their implementations. *)

From Stdlib Require Import Ascii String QArith Qround ZArith Sorted Permutation Lia.
From stdpp Require Import base option list sorting strings pretty gmap fin_maps.

Local Open Scope string_scope.
Local Open Scope list_scope.

(** ** JavaScript numbers *)

Inductive number : Type :=
  | Num (q : Q)
  | NaN.

Definition num_of_Z (z : Z) : number := Num (inject_Z z).

(** [a * b] *)
Definition num_mul (a b : number) : number :=
  match a, b with
  | Num x, Num y => Num (x * y)
  | _, _ => NaN
  end.

(** [a - b] *)
Definition num_sub (a b : number) : number :=
  match a, b with
  | Num x, Num y => Num (x - y)
  | _, _ => NaN
  end.

(** [a / b].  The scripts divide by the literals 100 and 10000 only; a zero
    divisor, whose quotient would be an infinity, is mapped to [NaN]. *)
Definition num_div (a b : number) : number :=
  match a, b with
  | Num x, Num y => if Qeq_bool y 0 then NaN else Num (x / y)
  | _, _ => NaN
  end.

(** [Math.round]: the nearest integer, halves going up. *)
Definition Math_round (a : number) : number :=
  match a with
  | Num x => num_of_Z (Qfloor (x + (1 # 2)))
  | NaN => NaN
  end.

(** [a >= b]; false as soon as one side is [NaN]. *)
Definition num_ge (a b : number) : bool :=
  match a, b with
  | Num x, Num y => Qle_bool y x
  | _, _ => false
  end.

(** [a > 0], the test a sort applies to the value of its comparator. *)
Definition num_pos (a : number) : bool :=
  match a with
  | Num x => negb (Qle_bool x 0)
  | NaN => false
  end.

(** [a !== 0]; [NaN !== 0] is true. *)
Definition num_nonzero (a : number) : bool :=
  match a with
  | Num x => negb (Qeq_bool x 0)
  | NaN => true
  end.

(** The order of the numbers, as a proposition: [NaN] is below nothing. *)
Definition num_le (a b : number) : Prop :=
  match a, b with
  | Num x, Num y => (x <= y)%Q
  | _, _ => False
  end.

Definition num_lt (a b : number) : Prop :=
  match a, b with
  | Num x, Num y => (x < y)%Q
  | _, _ => False
  end.

Definition is_Num (a : number) : Prop :=
  match a with Num _ => True | NaN => False end.

(** ** Arrays *)

(** [Array.prototype.sort(cmp)].  The sort is stable, and for a consistent
    comparator its result is fixed by the language: the stable arrangement in
    which [x] stands after [y] exactly when [cmp(x, y) > 0].  Insertion from
    the right computes it. *)
Fixpoint sort_insert {A : Type} (cmp : A → A → number) (x : A) (l : list A)
  : list A :=
  match l with
  | [] => [x]
  | y :: l' => if num_pos (cmp x y) then y :: sort_insert cmp x l' else x :: l
  end.

Definition Array_sort {A : Type} (cmp : A → A → number) (l : list A) : list A :=
  foldr (sort_insert cmp) [] l.

(** [ToIntegerOrInfinity]: [NaN] becomes 0, a fraction is truncated. *)
Definition ToIntegerOrInfinity (a : number) : Z :=
  match a with
  | Num x => Z.quot (Qnum x) (Zpos (Qden x))
  | NaN => 0
  end.

(** [arr.slice(0, end)]: a negative [end] counts from the back. *)
Definition Array_slice0 {A : Type} (l : list A) (end_ : number) : list A :=
  let len := Z.of_nat (length l) in
  let rel := ToIntegerOrInfinity end_ in
  let final := if (rel <? 0)%Z then Z.max (len + rel) 0 else Z.min rel len in
  take (Z.to_nat final) l.

(** [arr[idx] = val].  Writing past the end extends the array; the cells
    skipped over are holes, which read as [undefined] and which every use
    made of a vector here ([!== 0], arithmetic) treats as [NaN]. *)
Definition array_set (arr : list number) (idx : nat) (val : number)
  : list number :=
  if decide (idx < length arr)%nat then <[idx := val]> arr
  else arr ++ replicate (idx - length arr) NaN ++ [val].

(** [s.startsWith('.')] *)
Definition startsWith_dot (s : string) : bool :=
  match s with
  | String "."%char _ => true
  | _ => false
  end.

(** The truth value of a string in a condition. *)
Definition truthy_string (s : string) : bool :=
  match s with
  | EmptyString => false
  | _ => true
  end.

(** [o || d] on an optional string: [undefined], [null] and [''] give [d]. *)
Definition or_else (o : option string) (d : string) : string :=
  match o with
  | Some s => if truthy_string s then s else d
  | None => d
  end.

(** ** Calls that return, throw or end the process *)

(** A thrown value.  Errors raised by the file system carry a [code]
    ([ENOENT], [EACCES], ...); [Error], [TypeError] and [SyntaxError] do not. *)
Inductive error : Type :=
  | SystemError (code message : string)
  | JsError (name message : string).

(** [err.code] *)
Definition error_code (e : error) : option string :=
  match e with
  | SystemError code _ => Some code
  | JsError _ _ => None
  end.

(** [err.message] *)
Definition error_message (e : error) : string :=
  match e with
  | SystemError _ message => message
  | JsError _ message => message
  end.

Inductive outcome (A : Type) : Type :=
  | Return (a : A)
  | Throw (e : error)
  | Exit (status : Z).
Arguments Return {A} a.
Arguments Throw {A} e.
Arguments Exit {A} status.

#[global] Instance outcome_ret : MRet outcome := λ A a, Return a.
#[global] Instance outcome_bind : MBind outcome := λ A B f m,
  match m with
  | Return a => f a
  | Throw e => Throw e
  | Exit status => Exit status
  end.

(** What a path holds for [readFile], [writeFile] and [mkdir]: the text of a
    regular file, or something on which these calls fail with the given code
    and message (no permission, a directory, ...).  A path the map does not
    hold does not exist. *)
Inductive file : Type :=
  | Content (data : string)
  | Failing (code message : string).

(** The calls that change the file system, in the order they were made. *)
Inductive fscall : Type :=
  | Mkdir (path : string)
  | WriteFile (path data : string).

Record process : Type := {
  cwd : string;                (* process.cwd() *)
  now : string;                (* new Date().toISOString() *)
  fs : gmap string file;
  stderr : list string;        (* lines of console.error and console.warn *)
  calls : list fscall
}.

Definition M (A : Type) : Type := process → outcome A * process.

#[global] Instance M_ret : MRet M := λ A a st, (Return a, st).
#[global] Instance M_bind : MBind M := λ A B f m st,
  match m st with
  | (Return a, st') => f a st'
  | (Throw e, st') => (Throw e, st')
  | (Exit status, st') => (Exit status, st')
  end.

Definition throw {A : Type} (e : error) : M A := λ st, (Throw e, st).

(** [process.exit(status)] *)
Definition process_exit {A : Type} (status : Z) : M A := λ st, (Exit status, st).

(** [try { body } catch (err) { handler }] *)
Definition try_catch {A : Type} (body : M A) (handler : error → M A) : M A :=
  λ st,
    match body st with
    | (Throw e, st') => handler e st'
    | r => r
    end.

Definition lift {A : Type} (o : outcome A) : M A := λ st, (o, st).

Definition get_cwd : M string := λ st, (Return (cwd st), st).
Definition get_now : M string := λ st, (Return (now st), st).

(** The process after some lines went to the error stream. *)
Definition log_lines (lines : list string) (st : process) : process :=
  {| cwd := cwd st; now := now st; fs := fs st;
     stderr := stderr st ++ lines; calls := calls st |}.

(** [console.error(line)] and [console.warn(line)]: a line on the error
    stream.  ([console.log], the progress lines on the output stream, is not
    part of the model.) *)
Definition console_error (line : string) : M unit := λ st,
  (Return tt, log_lines [line] st).

Definition console_warn : string → M unit := console_error.

Definition enoent (path : string) : error :=
  SystemError "ENOENT"
    ("ENOENT: no such file or directory, open '" +:+ path +:+ "'").

(** What [readFile] does with a path: the text, or the error thrown. *)
Definition read_result (files : gmap string file) (path : string)
  : string + error :=
  match files !! path with
  | Some (Content data) => inl data
  | Some (Failing code message) => inr (SystemError code message)
  | None => inr (enoent path)
  end.

(** [await readFile(path, 'utf-8')] *)
Definition readFile (path : string) : M string := λ st,
  match read_result (fs st) path with
  | inl data => (Return data, st)
  | inr e => (Throw e, st)
  end.

Definition record_call (c : fscall) (files : gmap string file) (st : process)
  : process :=
  {| cwd := cwd st; now := now st; fs := files;
     stderr := stderr st; calls := calls st ++ [c] |}.

(** [await mkdir(path, { recursive: true })]: nothing to do when the
    directory is there; fails on a path that holds a regular file. *)
Definition mkdir (path : string) : M unit := λ st,
  match fs st !! path with
  | Some (Content _) =>
      (Throw (SystemError "EEXIST"
                ("EEXIST: file already exists, mkdir '" +:+ path +:+ "'")), st)
  | Some (Failing code message) => (Throw (SystemError code message), st)
  | None => (Return tt, record_call (Mkdir path) (fs st) st)
  end.

(** [await writeFile(path, data)]: after a call that returned, the file at
    [path] holds [data] and nothing else.  A path marked [Failing] is one on
    which the call fails.  The path is left as it was then, as it is when
    the file cannot be opened; a write that breaks off after the file was
    opened leaves it emptied or half written, which is not represented, and
    no property below is about the files a failed write leaves behind. *)
Definition writeFile (path data : string) : M unit := λ st,
  match fs st !! path with
  | Some (Failing code message) => (Throw (SystemError code message), st)
  | _ => (Return tt,
          record_call (WriteFile path data) (<[path := Content data]> (fs st)) st)
  end.

(** ** The data of the index *)

Record Document : Type := {
  doc_id : string;
  doc_title : string;
  doc_content : string
}.

Record DocumentMetadata : Type := {
  meta_id : string;
  meta_path : string;
  meta_title : string;
  meta_fingerprint : string;
  meta_ext : string;
  meta_tags : option (list string)    (* absent from a version 2 index *)
}.

Record Index : Type := {
  version : number;
  created : string;
  root : option string;
  hashDim : nat;
  docCount : nat;
  metadata : list DocumentMetadata;
  vectors : list (gmap nat number)
}.

Record VectorizeOptions : Type := {
  opt_contentExcerptLength : nat;
  opt_useHashing : bool;
  opt_hashDim : nat
}.

(** A value as [JSON.parse] returns it. *)
#[warnings="-register-all"]
Inductive json : Type :=
  | JNull
  | JBool (b : bool)
  | JNum (q : Q)
  | JStr (s : string)
  | JArr (items : list json)
  | JObj (fields : gmap string json).

(** ** The imported modules *)

(** [node:path] *)
Class NodePath : Type := {
  join : string → string → string;
  resolve : string → string → string;
  relative : string → string → string;
  isAbsolute : string → bool;
  extname : string → string
}.

(** [@watthem/quarrel].  The first argument of [cosineSimilarity] is
    [undefined] when the vectorizer returned no vector for the query. *)
Class Quarrel : Type := {
  vectorizeDocuments : list Document → VectorizeOptions → list (list number);
  cosineSimilarity : option (list number) → list number → number;
  stripFrontmatter : string → string;
  fingerprintText : string → string
}.

(** Built-ins: [JSON.parse] ([None]: a [SyntaxError]), [JSON.stringify] of an
    index, [String.prototype.toLowerCase]. *)
Class Builtins : Type := {
  JSON_parse : string → option json;
  JSON_stringify : Index → string;
  toLowerCase : string → string
}.

(** What [buildEnrichedContent] returns. *)
Record Enriched (F : Type) : Type := {
  enrichedContent : string;
  frontmatter : option F;
  body : string
}.
Arguments enrichedContent {F} _.
Arguments frontmatter {F} _.
Arguments body {F} _.

(** The frontmatter and title helpers of index-workspace.mjs
    ([parseFrontmatter] behind [buildEnrichedContent], and [extractTitle]):
    regular-expression text processing.  [parseFrontmatter] throws on some
    texts: a list item under a key calls [push] on what the frontmatter
    object holds for the key, which is a [TypeError] when that is a string
    set by an earlier line or a property every object inherits.
    [parseFrontmatter_error content] is the error thrown on [content], if
    one is, and [buildEnrichedContent] is what the call returns on the other
    texts; [extractTitle] returns for every text.
    [frontmatter_tags fm] is [fm?.tags || []]. *)
Class TextTools : Type := {
  Frontmatter : Type;
  parseFrontmatter_error : string → option error;
  buildEnrichedContent : string → string → Enriched Frontmatter;
  extractTitle : string → string → option Frontmatter → string;
  frontmatter_tags : option Frontmatter → list string
}.

(** ** scripts/shared.mjs *)

Record Config : Type := {
  cfg_hashDim : nat;
  cfg_contentExcerptLength : nat;
  cfg_threshold : number;
  cfg_top : number;
  cfg_allowedExtensions : list string;
  cfg_excludedDirs : list string
}.

Definition DEFAULT_CONFIG : Config := {|
  cfg_hashDim := 2048;
  cfg_contentExcerptLength := 1000;
  cfg_threshold := Num (1 # 10);
  cfg_top := Num 10;
  cfg_allowedExtensions :=
    [".md"; ".ts"; ".tsx"; ".js"; ".jsx"; ".py"; ".rs"; ".go"];
  cfg_excludedDirs :=
    ["node_modules"; "venv"; ".venv"; "target"; ".git"; "dist"; "build";
     "__pycache__"; ".pnpm-store"; ".netlify"; "archives"; ".next"; ".cache";
     "coverage"]
|}.

Definition getDefaultIndexDir `{NodePath} (workspaceRoot : string) : string :=
  join workspaceRoot ".similar-files".

Definition getIndexFile `{NodePath} (indexDir : string) : string :=
  join indexDir "index.json".

(** The keys of a sparse vector are array indices written in decimal, and
    [parseInt] gives the index back; the object is a map from indices.  The
    writes go to pairwise different cells, so the order in which the entries
    are visited does not show in the result. *)
Definition expandSparseVector (sparse : gmap nat number) (dim : nat)
  : list number :=
  map_fold (λ idx val dense, array_set dense idx val)
           (replicate dim (Num 0)) sparse.

(** ** scripts/index-workspace.mjs *)

Record BuildOptions : Type := {
  opt_root : option string;
  opt_indexDir : option string;
  opt_excludedDirs : option (list string);
  opt_allowedExtensions : option (list string)
}.

(** What [readdir(dir, { withFileTypes: true })] answers for a directory and
    for the directories below it.  A directory tree is finite, and a symbolic
    link is neither [isDirectory()] nor [isFile()]. *)
Inductive listing : Type :=
  | Unreadable (e : error)
  | Entries (entries : list dirent)
with dirent : Type :=
  | FileEnt (name : string)
  | DirEnt (name : string) (sub : listing)
  | OtherEnt (name : string).

Definition entry_name (entry : dirent) : string :=
  match entry with
  | FileEnt name => name
  | DirEnt name _ => name
  | OtherEnt name => name
  end.

(** [options.excludedDirs || DEFAULT_CONFIG.excludedDirs] and the same for
    the extensions; an array, even an empty one, is truthy. *)
Definition excludedDirs_of (options : BuildOptions) : list string :=
  default (cfg_excludedDirs DEFAULT_CONFIG) (opt_excludedDirs options).

Definition allowedExtensions_of (options : BuildOptions) : list string :=
  default (cfg_allowedExtensions DEFAULT_CONFIG) (opt_allowedExtensions options).

(** The [for] loop of [collectFiles] over the entries of [dir]; [recur] is
    the recursive call.  The array [files] is shared by all the calls: it is
    passed in and handed back. *)
Definition collectEntries `{NodePath, Builtins}
    (recur : string → listing → list string → outcome (list string))
    (dir : string) (excludedSet allowedSet : gset string)
  : list dirent → list string → outcome (list string) :=
  fix loop (entries : list dirent) (files : list string) :=
    match entries with
    | [] => Return files
    | entry :: rest =>
        let fullPath := join dir (entry_name entry) in
        match entry with
        | DirEnt name sub =>
            if negb (bool_decide (name ∈ excludedSet))
               && negb (startsWith_dot name)
            then files' ← recur fullPath sub files; loop rest files'
            else loop rest files
        | FileEnt name =>
            let ext := toLowerCase (extname name) in
            if bool_decide (ext ∈ allowedSet)
            then loop rest (files ++ [fullPath])
            else loop rest files
        | OtherEnt _ => loop rest files
        end
    end.

(** [collectFiles(dir, options, files)]; [here] is what [readdir] answers for
    [dir] and below.  A [readdir] that throws is caught on the spot and the
    array returned as it stands. *)
Fixpoint collectFiles `{NodePath, Builtins} (dir : string) (here : listing)
    (options : BuildOptions) (files : list string) {struct here}
  : outcome (list string) :=
  match here with
  | Unreadable _ => Return files
  | Entries entries =>
      let excludedSet : gset string := list_to_set (excludedDirs_of options) in
      let allowedSet : gset string :=
        list_to_set (allowedExtensions_of options) in
      collectEntries (λ d sub fs, collectFiles d sub options fs)
                     dir excludedSet allowedSet entries files
  end.

(** [Math.round(x * 10000) / 10000], the product being exact. *)
Definition round4 (x : number) : number :=
  num_div (Math_round (num_mul x (Num 10000))) (Num 10000).

(** The function mapped over the vectors in [buildIndex]:
    [for (i = 0; i < vec.length; i++) if (vec[i] !== 0) sparse[i] = ...]. *)
Fixpoint toSparse_from (i : nat) (vec : list number) (sparse : gmap nat number)
  : gmap nat number :=
  match vec with
  | [] => sparse
  | x :: rest =>
      toSparse_from (S i) rest
        (if num_nonzero x then <[i := round4 x]> sparse else sparse)
  end.

Definition toSparse (vec : list number) : gmap nat number :=
  toSparse_from 0 vec ∅.

(** The two versions of the script: the current one writes version 3 and
    vectorizes the enriched content; the earlier one (version 2) vectorizes
    the text without its frontmatter and stores no tags. *)
Inductive script : Type := Current | Earlier.

Definition script_version (s : script) : number :=
  match s with
  | Current => Num 3
  | Earlier => Num 2
  end.

(** The error the helpers throw on the text of a file between [readFile] and
    the two [push] calls: the one of [parseFrontmatter] in the current
    script, none in the earlier one, which does not parse the frontmatter. *)
Definition describe_error `{TextTools} (s : script) (content : string)
  : option error :=
  match s with
  | Current => parseFrontmatter_error content
  | Earlier => None
  end.

(** The document and the metadata pushed for one file that was read and on
    whose text the helpers returned. *)
Definition describe `{NodePath, Quarrel, Builtins, TextTools} (s : script)
    (root filePath content : string) : Document * DocumentMetadata :=
  let relativePath := relative root filePath in
  match s with
  | Current =>
      let e := buildEnrichedContent content filePath in
      let title := extractTitle (body e) filePath (frontmatter e) in
      let fingerprint := fingerprintText content in
      ({| doc_id := relativePath; doc_title := title;
          doc_content := enrichedContent e |},
       {| meta_id := relativePath; meta_path := relativePath;
          meta_title := title; meta_fingerprint := fingerprint;
          meta_ext := toLowerCase (extname filePath);
          meta_tags := Some (frontmatter_tags (frontmatter e)) |})
  | Earlier =>
      let title := extractTitle content filePath None in
      let fingerprint := fingerprintText content in
      ({| doc_id := relativePath; doc_title := title;
          doc_content := stripFrontmatter content |},
       {| meta_id := relativePath; meta_path := relativePath;
          meta_title := title; meta_fingerprint := fingerprint;
          meta_ext := toLowerCase (extname filePath);
          meta_tags := None |})
  end.

(** The loop of [buildIndex] over the collected files: each file is read and
    described inside a [try]; the [catch] warns and goes on, whether the
    error came from [readFile] or from a helper. *)
Fixpoint readDocuments `{NodePath, Quarrel, Builtins, TextTools} (s : script)
    (root : string) (files : list string)
    (docs : list Document) (metadata : list DocumentMetadata)
  : M (list Document * list DocumentMetadata) :=
  match files with
  | [] => mret (docs, metadata)
  | filePath :: rest =>
      acc ← try_catch
        (content ← readFile filePath;
         _ ← match describe_error s content with
             | Some err => throw err
             | None => mret tt
             end;
         let dm := describe s root filePath content in
         mret (docs ++ [dm.1], metadata ++ [dm.2]))
        (λ err,
           _ ← console_warn
                 ("Skipping " +:+ filePath +:+ ": " +:+ error_message err);
           mret (docs, metadata));
      readDocuments s root rest acc.1 acc.2
  end.

Definition build_vectorize_options : VectorizeOptions := {|
  opt_contentExcerptLength := cfg_contentExcerptLength DEFAULT_CONFIG;
  opt_useHashing := true;
  opt_hashDim := cfg_hashDim DEFAULT_CONFIG
|}.

(** The object [buildIndex] serializes: the vectors of the documents in
    sparse form, next to their metadata. *)
Definition index_object `{Quarrel} (s : script) (root created : string)
    (docs : list Document) (metadata : list DocumentMetadata) : Index :=
  let vectors := vectorizeDocuments docs build_vectorize_options in
  let sparseVectors := toSparse <$> vectors in
  {| version := script_version s;
     created := created;
     root := Some root;
     hashDim := cfg_hashDim DEFAULT_CONFIG;
     docCount := length docs;
     metadata := metadata;
     vectors := sparseVectors |}.

(** The root, the index directory and the index file of a build. *)
Definition build_root `{NodePath} (options : BuildOptions) (here : string)
  : string :=
  resolve here (or_else (opt_root options) here).

Definition build_indexDir `{NodePath} (options : BuildOptions) (here : string)
  : string :=
  or_else (opt_indexDir options) (getDefaultIndexDir (build_root options here)).

Definition build_indexFile `{NodePath} (options : BuildOptions) (here : string)
  : string :=
  getIndexFile (build_indexDir options here).

(** [buildIndex(options)]; [tree] is the directory tree found at the root. *)
Definition buildIndex `{NodePath, Quarrel, Builtins, TextTools} (s : script)
    (options : BuildOptions) (tree : listing) : M unit :=
  here ← get_cwd;
  let root := build_root options here in
  let indexDir := build_indexDir options here in
  let indexFile := build_indexFile options here in
  files ← lift (collectFiles root tree options []);
  match files with
  | [] => process_exit 0
  | _ =>
      dm ← readDocuments s root files [] [];
      let docs := dm.1 in
      let metadata := dm.2 in
      _ ← mkdir indexDir;
      created ← get_now;
      let index := index_object s root created docs metadata in
      writeFile indexFile (JSON_stringify index)
  end.

(** ** The query script (find-similar) *)

Record FindOptions : Type := {
  find_query : string;
  find_isText : bool;
  find_top : number;
  find_threshold : number;
  find_indexDir : option string
}.

(** [v.key] for the three property names [loadIndex] reads.  Reading a
    property of [null] throws; numbers, strings, booleans and arrays have no
    property of these names. *)
Definition json_get (v : json) (key : string) : outcome (option json) :=
  match v with
  | JNull =>
      Throw (JsError "TypeError"
               ("Cannot read properties of null (reading '" +:+ key +:+ "')"))
  | JObj fields => Return (fields !! key)
  | _ => Return None
  end.

(** The truth value of a property that was read ([None]: [undefined]). *)
Definition truthy (v : option json) : bool :=
  match v with
  | None => false
  | Some JNull => false
  | Some (JBool b) => b
  | Some (JNum q) => negb (Qeq_bool q 0)
  | Some (JStr s) => truthy_string s
  | Some (JArr _) => true
  | Some (JObj _) => true
  end.

Definition invalid_index_format : error :=
  JsError "Error" "Invalid index format".

Definition json_syntax_error : error :=
  JsError "SyntaxError" "Unexpected token in JSON".

Definition index_not_found_lines (indexFile : string) : list string :=
  ["Index not found at: " +:+ indexFile;
   "";
   "To create an index, run:";
   "  similar-index --root /path/to/workspace"].

(** [loadIndex(indexDir)] *)
Definition loadIndex `{NodePath, Builtins} (indexDir : option string)
  : M (json * string) :=
  here ← get_cwd;
  let dir := or_else indexDir (getDefaultIndexDir here) in
  let indexFile := getIndexFile dir in
  try_catch
    (data ← readFile indexFile;
     index ← match JSON_parse data with
             | Some v => mret v
             | None => throw json_syntax_error
             end;
     version ← lift (json_get index "version");
     if negb (truthy version) then throw invalid_index_format else
     vectors ← lift (json_get index "vectors");
     if negb (truthy vectors) then throw invalid_index_format else
     metadata ← lift (json_get index "metadata");
     if negb (truthy metadata) then throw invalid_index_format else
     mret (index, indexFile))
    (λ err,
       if bool_decide (error_code err = Some "ENOENT") then
         _ ← console_error ("Index not found at: " +:+ indexFile);
         _ ← console_error "";
         _ ← console_error "To create an index, run:";
         _ ← console_error "  similar-index --root /path/to/workspace";
         process_exit 1
       else throw err).

Record QueryContent : Type := {
  qc_content : string;
  qc_title : string;
  qc_absolutePath : option string     (* undefined for a text query *)
}.

(** The file a file query names: the path as given when it is absolute,
    resolved against the working directory otherwise. *)
Definition query_file_path `{NodePath} (here query : string) : string :=
  if isAbsolute query then query else resolve here query.

(** [getQueryContent(query, isText, workspaceRoot)] *)
Definition getQueryContent `{NodePath, Quarrel} (query : string)
    (isText : bool) (workspaceRoot : option string) : M QueryContent :=
  if isText then
    mret {| qc_content := query; qc_title := "Query";
            qc_absolutePath := None |}
  else
    here ← get_cwd;
    let filePath := query_file_path here query in
    try_catch
      (content ← readFile filePath;
       let relativePath :=
         match workspaceRoot with
         | Some w => relative w filePath
         | None => query
         end in
       mret {| qc_content := stripFrontmatter content;
               qc_title := relativePath;
               qc_absolutePath := Some filePath |})
      (λ err,
         _ ← console_error ("Cannot read file: " +:+ query);
         _ ← console_error (error_message err);
         process_exit 1).

(** One entry of the result list. *)
Record SimilarFile : Type := {
  res_path : string;
  res_title : string;
  res_similarity : number;
  res_ext : string
}.

Record Found : Type := {
  found_results : list SimilarFile;
  found_query : string;
  found_workspaceRoot : option string
}.

(** [index.metadata[i]] followed by a property read: a [TypeError] when the
    metadata array has no element [i]. *)
Definition metadata_at (index : Index) (i : nat) : outcome DocumentMetadata :=
  match metadata index !! i with
  | Some m => Return m
  | None =>
      Throw (JsError "TypeError"
               "Cannot read properties of undefined (reading 'path')")
  end.

(** [index.root || null] *)
Definition workspaceRoot_of (index : Index) : option string :=
  match root index with
  | Some r => if truthy_string r then Some r else None
  | None => None
  end.

(** The absolute path the loop computes for an indexed document. *)
Definition docAbsPath_of `{NodePath} (workspaceRoot : option string)
    (path : string) : string :=
  match workspaceRoot with
  | Some w => resolve w path
  | None => path
  end.

(** The two tests of the loop that skip the query's own file:
    [absolutePath && docAbsPath === absolutePath], then [path === title]. *)
Definition is_self `{NodePath} (workspaceRoot : option string)
    (qc : QueryContent) (m : DocumentMetadata) : bool :=
  match qc_absolutePath qc with
  | Some a =>
      truthy_string a
      && bool_decide (docAbsPath_of workspaceRoot (meta_path m) = a)
  | None => false
  end
  || bool_decide (meta_path m = qc_title qc).

(** [Math.round(similarity * 100) / 100], the product being exact. *)
Definition round2 (similarity : number) : number :=
  num_div (Math_round (num_mul similarity (Num 100))) (Num 100).

(** The record pushed for a document that passed the threshold. *)
Definition present (m : DocumentMetadata) (similarity : number) : SimilarFile :=
  {| res_path := meta_path m; res_title := meta_title m;
     res_similarity := round2 similarity; res_ext := meta_ext m |}.

(** The loop of [findSimilar]: [vecs] is what is left of [index.vectors]
    from position [i] on, [results] the array filled so far. *)
Fixpoint scan `{NodePath, Quarrel} (index : Index) (options : FindOptions)
    (workspaceRoot : option string) (qc : QueryContent)
    (queryVector : option (list number))
    (i : nat) (vecs : list (gmap nat number)) (results : list SimilarFile)
  : outcome (list SimilarFile) :=
  match vecs with
  | [] => Return results
  | sparse :: rest =>
      let docVector := expandSparseVector sparse (hashDim index) in
      let similarity := cosineSimilarity queryVector docVector in
      skip ← (if find_isText options then Return false
              else m ← metadata_at index i;
                   Return (is_self workspaceRoot qc m));
      if (skip : bool) then
        scan index options workspaceRoot qc queryVector (S i) rest results
      else if num_ge similarity (find_threshold options) then
        m ← metadata_at index i;
        scan index options workspaceRoot qc queryVector (S i) rest
             (results ++ [present m similarity])
      else
        scan index options workspaceRoot qc queryVector (S i) rest results
  end.

(** The comparator handed to [results.sort]. *)
Definition by_similarity (a b : SimilarFile) : number :=
  num_sub (res_similarity b) (res_similarity a).

Definition query_vectorize_options (index : Index) : VectorizeOptions := {|
  opt_contentExcerptLength := cfg_contentExcerptLength DEFAULT_CONFIG;
  opt_useHashing := true;
  opt_hashDim := hashDim index
|}.

(** The vector of the query: the first one the vectorizer returns. *)
Definition queryVector_of `{Quarrel} (index : Index) (qc : QueryContent)
  : option (list number) :=
  head (vectorizeDocuments
          [{| doc_id := "query"; doc_title := qc_title qc;
              doc_content := qc_content qc |}]
          (query_vectorize_options index)).

(** [findSimilar(options)], from the line after [loadIndex]: [index] is the
    index that was loaded, in the shape [buildIndex] writes. *)
Definition findSimilar `{NodePath, Quarrel} (index : Index)
    (options : FindOptions) : M Found :=
  let workspaceRoot := workspaceRoot_of index in
  qc ← getQueryContent (find_query options) (find_isText options)
                        workspaceRoot;
  let queryVector := queryVector_of index qc in
  results ← lift (scan index options workspaceRoot qc queryVector
                       0 (vectors index) []);
  let sorted := Array_sort by_similarity results in
  mret {| found_results := Array_slice0 sorted (find_top options);
          found_query := if find_isText options then find_query options
                         else qc_title qc;
          found_workspaceRoot := workspaceRoot |}.

(** The parsed index file read as an index: [index.root], [index.hashDim],
    [index.vectors] and [index.metadata[i]] are property reads on the value
    [JSON.parse] returned, and [as_index] stands for them.  What these reads
    give on a value that is not of the shape [buildIndex] writes is left
    open. *)
Class IndexView : Type := {
  as_index : json → Index
}.

(** [findSimilar(options)] from its first line: the index is loaded, and
    the query is read and ranked after that. *)
Definition findSimilar_loading `{NodePath, Quarrel, Builtins, IndexView}
    (options : FindOptions) : M Found :=
  loaded ← loadIndex (find_indexDir options);
  findSimilar (as_index loaded.1) options.

(** An indexed document with its full-precision score, and all of them in
    index order. *)
Definition score `{Quarrel} (index : Index) (qc : QueryContent)
    (mv : DocumentMetadata * gmap nat number) : DocumentMetadata * number :=
  (mv.1, cosineSimilarity (queryVector_of index qc)
           (expandSparseVector mv.2 (hashDim index))).

Definition scored `{Quarrel} (index : Index) (qc : QueryContent)
  : list (DocumentMetadata * number) :=
  score index qc <$> zip (metadata index) (vectors index).

(** A candidate is kept when it is not the query's own file (file queries
    only) and its full-precision score reaches the threshold. *)
Definition keeps `{NodePath} (index : Index) (options : FindOptions)
    (qc : QueryContent) (ms : DocumentMetadata * number) : bool :=
  negb (negb (find_isText options)
        && is_self (workspaceRoot_of index) qc ms.1)
  && num_ge ms.2 (find_threshold options).

Definition kept `{NodePath, Quarrel} (index : Index) (options : FindOptions)
    (qc : QueryContent) : list (DocumentMetadata * number) :=
  List.filter (keeps index options qc) (scored index qc).

Definition present_scored (ms : DocumentMetadata * number) : SimilarFile :=
  present ms.1 ms.2.

(** The ranking as section 4.4 of the specification words it, to compare
    with [findSimilar]: the kept candidates are sorted by descending
    full-precision score and cut to the limit, and only then is the score
    rounded for presentation. *)
Definition spec_rank `{NodePath, Quarrel} (index : Index)
    (options : FindOptions) (qc : QueryContent) : list SimilarFile :=
  let sorted :=
    Array_sort (λ a b : DocumentMetadata * number, num_sub b.2 a.2)
               (kept index options qc) in
  present_scored <$> Array_slice0 sorted (find_top options).

(** ** Notions the properties are stated with *)

(** The contract of the result list for a threshold [t] and a limit [n],
    for a given reading [score] of the score of an entry. *)
Definition threshold_topN_contract (score : SimilarFile → number)
    (t n : number) (results : list SimilarFile) : Prop :=
  Forall (λ r, num_le t (score r)) results
  ∧ num_le (num_of_Z (Z.of_nat (length results))) n
  ∧ StronglySorted (λ a b, num_le (score b) (score a)) results.

(** The full-precision score of the indexed document an entry names. *)
Definition full_score `{Quarrel} (index : Index) (qc : QueryContent)
    (r : SimilarFile) : number :=
  match List.find (λ ms : DocumentMetadata * number,
                     bool_decide (meta_path ms.1 = res_path r))
                  (scored index qc) with
  | Some ms => ms.2
  | None => NaN
  end.

(** Descending order of the reported scores. *)
Definition reported_descending (results : list SimilarFile) : Prop :=
  StronglySorted (λ a b, num_le (res_similarity b) (res_similarity a)) results.

(** The structural invariants of an index as sections 3 and 4.5 of the
    specification state them, read on a parsed file: the required fields are
    there and the metadata and the vectors are arrays of the length
    [docCount]. *)
Definition json_field (j : json) (key : string) : option json :=
  match j with
  | JObj fields => fields !! key
  | _ => None
  end.

Definition json_array_length (v : option json) : option nat :=
  match v with
  | Some (JArr items) => Some (length items)
  | _ => None
  end.

Definition structurally_valid (j : json) : bool :=
  truthy (json_field j "version")
  && match json_array_length (json_field j "metadata"),
           json_array_length (json_field j "vectors"),
           json_field j "docCount" with
     | Some a, Some b, Some (JNum c) =>
         bool_decide (a = b) && Qeq_bool (inject_Z (Z.of_nat a)) c
     | _, _, _ => false
     end.

(** An atomic replace writes the new text to another path and renames that
    onto the target, so that [writeFile] is never given the target itself. *)
Definition written_in_place (target : string) (cs : list fscall) : Prop :=
  ∃ data, WriteFile target data ∈ cs.

(** What the body of the [try] comes to for one file: the document and the
    metadata it pushes, or the error it throws, from [readFile] or from a
    helper. *)
Definition file_result `{NodePath, Quarrel, Builtins, TextTools} (s : script)
    (root : string) (disk : gmap string file) (filePath : string)
  : Document * DocumentMetadata + error :=
  match read_result disk filePath with
  | inl content =>
      match describe_error s content with
      | Some err => inr err
      | None => inl (describe s root filePath content)
      end
  | inr err => inr err
  end.

(** The documents and metadata of the files on which the body of the [try]
    comes through, and the warnings for the others, in the order of the
    files. *)
Definition described `{NodePath, Quarrel, Builtins, TextTools} (s : script)
    (root : string) (disk : gmap string file) (files : list string)
  : list (Document * DocumentMetadata) :=
  omap (λ filePath,
          match file_result s root disk filePath with
          | inl dm => Some dm
          | inr _ => None
          end) files.

Definition skip_warnings `{NodePath, Quarrel, Builtins, TextTools} (s : script)
    (root : string) (disk : gmap string file) (files : list string)
  : list string :=
  omap (λ filePath,
          match file_result s root disk filePath with
          | inl _ => None
          | inr err =>
              Some ("Skipping " +:+ filePath +:+ ": " +:+ error_message err)
          end) files.

(** The index [buildIndex] writes and the state in which it returns, for
    the files collected and the state it started in. *)
Definition built_index `{NodePath, Quarrel, Builtins, TextTools} (s : script)
    (options : BuildOptions) (files : list string) (st : process) : Index :=
  let dm := described s (build_root options (cwd st)) (fs st) files in
  index_object s (build_root options (cwd st)) (now st)
               (fst <$> dm) (snd <$> dm).

Definition built_state `{NodePath, Quarrel, Builtins, TextTools} (s : script)
    (options : BuildOptions) (files : list string) (st : process) : process :=
  let indexFile := build_indexFile options (cwd st) in
  let data := JSON_stringify (built_index s options files st) in
  record_call (WriteFile indexFile data) (<[indexFile := Content data]> (fs st))
    (record_call (Mkdir (build_indexDir options (cwd st))) (fs st)
       (log_lines (skip_warnings s (build_root options (cwd st)) (fs st) files)
                  st)).

(** The paths the traversal is meant to collect below [dir]: the regular
    files with an allowed extension, reached through directories that are
    neither excluded nor hidden. *)
Inductive collectable `{NodePath, Builtins} (options : BuildOptions)
  : string → listing → string → Prop :=
  | collectable_file dir entries name :
      FileEnt name ∈ entries →
      toLowerCase (extname name) ∈ allowedExtensions_of options →
      collectable options dir (Entries entries) (join dir name)
  | collectable_below dir entries name sub p :
      DirEnt name sub ∈ entries →
      name ∉ excludedDirs_of options →
      startsWith_dot name = false →
      collectable options (join dir name) sub p →
      collectable options dir (Entries entries) p.

(** The same, through one entry of [dir]. *)
Definition collectable_via `{NodePath, Builtins} (options : BuildOptions)
    (dir : string) (entry : dirent) (p : string) : Prop :=
  match entry with
  | FileEnt name =>
      (toLowerCase (extname name) ∈ allowedExtensions_of options)
      ∧ p = join dir name
  | DirEnt name sub =>
      (name ∉ excludedDirs_of options)
      ∧ startsWith_dot name = false
      ∧ collectable options (join dir name) sub p
  | OtherEnt _ => False
  end.

(** The tree in which every unreadable directory is an empty one. *)
Fixpoint as_empty (here : listing) : listing :=
  match here with
  | Unreadable _ => Entries []
  | Entries entries =>
      Entries (map (λ entry,
                      match entry with
                      | DirEnt name sub => DirEnt name (as_empty sub)
                      | _ => entry
                      end) entries)
  end.

(** ** Implementations of the interfaces, for running the scripts on examples *)

(** POSIX paths without [.] and [..] segments and without doubled or trailing
    slashes: on these [join] and [resolve] concatenate and [relative] removes
    the prefix. *)
Definition posix_isAbsolute (p : string) : bool :=
  match p with
  | String "/"%char _ => true
  | _ => false
  end.

Definition posix_join (dir name : string) : string := dir +:+ "/" +:+ name.

Definition posix_resolve (base p : string) : string :=
  if posix_isAbsolute p then p else posix_join base p.

Fixpoint strip_prefix (pre s : string) : option string :=
  match pre, s with
  | EmptyString, _ => Some s
  | String a pre', String b s' =>
      if decide (a = b) then strip_prefix pre' s' else None
  | String _ _, EmptyString => None
  end.

Definition posix_relative (from to : string) : string :=
  match strip_prefix (from +:+ "/") to with
  | Some rest => rest
  | None => to
  end.

(** The part of a path after its last slash. *)
Fixpoint last_segment (p : string) : string :=
  match p with
  | EmptyString => EmptyString
  | String c rest =>
      if existsb (λ d, bool_decide (d = "/"%char)) (list_ascii_of_string rest)
      then last_segment rest
      else if decide (c = "/"%char) then rest else p
  end.

(** The suffix of [s] that starts at its last dot. *)
Fixpoint from_last_dot (s : string) : option string :=
  match s with
  | EmptyString => None
  | String c rest =>
      match from_last_dot rest with
      | Some e => Some e
      | None => if decide (c = "."%char) then Some s else None
      end
  end.

(** [path.extname]: from the last dot of the last segment on; empty when
    there is no dot, when the only dot leads the segment, and for [..]. *)
Definition posix_extname (p : string) : string :=
  match last_segment p with
  | EmptyString => ""
  | String c rest =>
      if decide (String c rest = "..") then ""
      else default "" (from_last_dot rest)
  end.

#[local] Instance posix : NodePath := {|
  join := posix_join;
  resolve := posix_resolve;
  relative := posix_relative;
  isAbsolute := posix_isAbsolute;
  extname := posix_extname
|}.

(** Lower case of the ASCII letters. *)
Definition ascii_lower (c : ascii) : ascii :=
  let n := nat_of_ascii c in
  if decide (65 ≤ n ≤ 90)%nat then ascii_of_nat (n + 32) else c.

Fixpoint ascii_toLowerCase (s : string) : string :=
  match s with
  | EmptyString => EmptyString
  | String c rest => String (ascii_lower c) (ascii_toLowerCase rest)
  end.

(** An index file with two vectors and one metadata record, as a text and
    as the value [JSON.parse] makes of it. *)
Definition lopsided_text : string :=
  "{'version':3,'hashDim':2048,'docCount':1,'metadata':[{'path':'a.md'}],'vectors':[{'0':1},{'1':1}]}".

Definition lopsided_json : json :=
  JObj (list_to_map
    [("version", JNum 3);
     ("hashDim", JNum 2048);
     ("docCount", JNum 1);
     ("metadata", JArr [JObj (list_to_map [("path", JStr "a.md")])]);
     ("vectors", JArr [JObj (list_to_map [("0", JNum 1)]);
                        JObj (list_to_map [("1", JNum 1)])])]).

(** A parser that knows the texts of the examples, and a printer that shows
    the counts of an index. *)
Definition table_parse (s : string) : option json :=
  if decide (s = lopsided_text) then Some lopsided_json
  else if decide (s = "null") then Some JNull
  else if decide (s = "{}") then Some (JObj ∅)
  else None.

Definition show_index (index : Index) : string :=
  "index docCount=" +:+ pretty (docCount index)
  +:+ " metadata=" +:+ pretty (length (metadata index))
  +:+ " vectors=" +:+ pretty (length (vectors index)).

#[local] Instance table_builtins : Builtins := {|
  JSON_parse := table_parse;
  JSON_stringify := show_index;
  toLowerCase := ascii_toLowerCase
|}.

(** A vectorizer that sends every document to the first unit vector, and the
    dot product, which is the cosine on unit vectors. *)
Definition unit_vector (dim : nat) : list number :=
  match dim with
  | O => []
  | S d => Num 1 :: replicate d (Num 0)
  end.

Definition num_add (a b : number) : number :=
  match a, b with
  | Num x, Num y => Num (Qred (x + y))
  | _, _ => NaN
  end.

Fixpoint dot (a b : list number) : number :=
  match a, b with
  | x :: a', y :: b' => num_add (num_mul x y) (dot a' b')
  | _, _ => Num 0
  end.

#[local] Instance unit_quarrel : Quarrel := {|
  vectorizeDocuments := λ docs o, (λ _, unit_vector (opt_hashDim o)) <$> docs;
  cosineSimilarity := λ q d, match q with Some v => dot v d | None => NaN end;
  stripFrontmatter := λ s, s;
  fingerprintText := λ s, s
|}.

(** A text whose frontmatter sets [tags] to a string and then has a list
    item under [tags]: [parseFrontmatter] calls [push] on the string. *)
Definition newline : string := String "010"%char EmptyString.

Definition clashing_text : string :=
  "---" +:+ newline +:+ "tags: foo" +:+ newline +:+ "tags:" +:+ newline
  +:+ "  - bar" +:+ newline +:+ "---" +:+ newline +:+ "body".

Definition push_error : error :=
  JsError "TypeError" "frontmatter[currentKey].push is not a function".

(** The helpers on texts without frontmatter, and on [clashing_text]. *)
#[local] Instance plain_text : TextTools := {|
  Frontmatter := unit;
  parseFrontmatter_error := λ content,
    if decide (content = clashing_text) then Some push_error else None;
  buildEnrichedContent := λ content filename,
    {| enrichedContent := content; frontmatter := None; body := content |};
  extractTitle := λ content filename fm, last_segment filename;
  frontmatter_tags := λ fm, []
|}.

(** ** Example data *)

Definition meta_of (path title : string) : DocumentMetadata := {|
  meta_id := path; meta_path := path; meta_title := title;
  meta_fingerprint := ""; meta_ext := ".md"; meta_tags := Some []
|}.

(** Two documents whose scores against the first unit vector are 0.101 and
    0.104: different, and both reported as 0.1. *)
Definition near_index : Index := {|
  version := Num 3;
  created := "2026-01-01T00:00:00.000Z";
  root := Some "/w";
  hashDim := 2048;
  docCount := 2;
  metadata := [meta_of "a.md" "a"; meta_of "b.md" "b"];
  vectors :=
    [ {[ 0%nat := Num (101 # 1000); 1%nat := Num (9949 # 10000) ]};
      {[ 0%nat := Num (104 # 1000); 1%nat := Num (9946 # 10000) ]} ]
|}.

(** [--text "some words" --threshold 0.1005] *)
Definition near_options : FindOptions := {|
  find_query := "some words";
  find_isText := true;
  find_top := Num 10;
  find_threshold := Num (1005 # 10000);
  find_indexDir := None
|}.

(** [--text "some words" --threshold 0.1005 --top -1] *)
Definition near_options_minus_one : FindOptions := {|
  find_query := "some words";
  find_isText := true;
  find_top := Num (-1);
  find_threshold := Num (1005 # 10000);
  find_indexDir := None
|}.

Definition near_qc : QueryContent := {|
  qc_content := "some words"; qc_title := "Query"; qc_absolutePath := None
|}.

(** [a.md] queried from the workspace root [/w], where it lies. *)
Definition self_options : FindOptions := {|
  find_query := "a.md";
  find_isText := false;
  find_top := Num 10;
  find_threshold := Num (1 # 10);
  find_indexDir := None
|}.

Definition workspace (disk : gmap string file) : process := {|
  cwd := "/w"; now := "2026-01-01T00:00:00.000Z"; fs := disk;
  stderr := []; calls := []
|}.

Definition small_disk : gmap string file :=
  {[ "/w/a.md" := Content "alpha";
     "/w/src/m.JS" := Failing "EACCES" "EACCES: permission denied";
     "/w/src/z.py" := Content "zed" ]}.

Definition small_tree : listing :=
  Entries
    [FileEnt "a.md";
     DirEnt ".similar-files" (Entries [FileEnt "index.json"; FileEnt "x.md"]);
     DirEnt "src"
       (Entries [FileEnt "m.JS"; FileEnt "n.txt";
                 DirEnt "locked" (Unreadable (SystemError "EACCES" "denied"));
                 FileEnt "z.py"]);
     OtherEnt "link.md";
     DirEnt "node_modules" (Entries [FileEnt "q.js"])].

Definition default_build : BuildOptions := {|
  opt_root := None; opt_indexDir := None;
  opt_excludedDirs := None; opt_allowedExtensions := None
|}.

Definition lopsided_disk : gmap string file :=
  {[ "/w/.similar-files/index.json" := Content lopsided_text ]}.

(** A vector of the build dimension with one weight of 0.00001. *)
Definition tiny_vector : list number :=
  Num (1 # 100000) :: Num 1 :: replicate 2046 (Num 0).

(** What the query script answers on [near_index]: both documents, in
    index order, each reported as 0.1; and all but the last for [--top -1]. *)
Definition near_found : Found := {|
  found_results :=
    [present (meta_of "a.md" "a") (Num (101 # 1000));
     present (meta_of "b.md" "b") (Num (104 # 1000))];
  found_query := "some words";
  found_workspaceRoot := Some "/w"
|}.

Definition near_found_minus_one : Found := {|
  found_results := [present (meta_of "a.md" "a") (Num (101 # 1000))];
  found_query := "some words";
  found_workspaceRoot := Some "/w"
|}.

(** A workspace that holds [a.md] and [b.md], both indexed. *)
Definition self_disk : gmap string file :=
  {[ "/w/a.md" := Content "alpha"; "/w/b.md" := Content "beta" ]}.

Definition self_index : Index := {|
  version := Num 3;
  created := "2026-01-01T00:00:00.000Z";
  root := Some "/w";
  hashDim := 2048;
  docCount := 2;
  metadata := [meta_of "a.md" "a"; meta_of "b.md" "b"];
  vectors :=
    [ {[ 0%nat := Num 1 ]};
      {[ 0%nat := Num (6 # 10); 1%nat := Num (8 # 10) ]} ]
|}.

Definition self_found : Found := {|
  found_results := [present (meta_of "b.md" "b") (Num (6 # 10))];
  found_query := "a.md";
  found_workspaceRoot := Some "/w"
|}.

(** The build of [small_tree] over [small_disk]: three files are collected,
    one of them cannot be read. *)
Definition small_files : list string :=
  ["/w/a.md"; "/w/src/m.JS"; "/w/src/z.py"].

Definition small_built : process :=
  built_state Current default_build small_files (workspace small_disk).

(** A workspace of three files: one that cannot be read, one whose
    frontmatter makes [parseFrontmatter] throw, and one that is indexed. *)
Definition mixed_disk : gmap string file :=
  {[ "/w/locked.md" := Failing "EACCES" "EACCES: permission denied";
     "/w/notes.md" := Content clashing_text;
     "/w/z.py" := Content "zed" ]}.

Definition mixed_tree : listing :=
  Entries [FileEnt "locked.md"; FileEnt "notes.md"; FileEnt "z.py"].

Definition mixed_files : list string :=
  ["/w/locked.md"; "/w/notes.md"; "/w/z.py"].

(** ** The command lines *)

(** [parseInt(s, 10)] and [parseFloat(s)]; the argument is [undefined] when
    the flag is the last word of the command line. *)
Class NumberParsing : Type := {
  parseInt10 : option string → number;
  parseFloat : option string → number
}.

(** The object [parseBaseArgs] fills: the options [buildIndex] reads, and
    the two flags [main] looks at. *)
Record BaseArgs : Type := {
  base_options : BuildOptions;
  base_help : bool;
  base_version : bool
}.

(** [{}] *)
Definition no_base_args : BaseArgs := {|
  base_options := {| opt_root := None; opt_indexDir := None;
                     opt_excludedDirs := None; opt_allowedExtensions := None |};
  base_help := false;
  base_version := false
|}.

(** [result.root = v] *)
Definition base_set_root (v : option string) (r : BaseArgs) : BaseArgs :=
  {| base_options :=
       {| opt_root := v;
          opt_indexDir := opt_indexDir (base_options r);
          opt_excludedDirs := opt_excludedDirs (base_options r);
          opt_allowedExtensions := opt_allowedExtensions (base_options r) |};
     base_help := base_help r;
     base_version := base_version r |}.

(** [result.indexDir = v] *)
Definition base_set_indexDir (v : option string) (r : BaseArgs) : BaseArgs :=
  {| base_options :=
       {| opt_root := opt_root (base_options r);
          opt_indexDir := v;
          opt_excludedDirs := opt_excludedDirs (base_options r);
          opt_allowedExtensions := opt_allowedExtensions (base_options r) |};
     base_help := base_help r;
     base_version := base_version r |}.

(** [arg === a || arg === b] *)
Definition is_flag (arg a b : string) : bool :=
  bool_decide (arg = a) || bool_decide (arg = b).

(** [parseBaseArgs(args, defaults)]: [result] starts as a copy of
    [defaults]; [args[++i]] past the end is [undefined]. *)
Fixpoint parseBaseArgs (args : list string) (result : BaseArgs) : BaseArgs :=
  match args with
  | [] => result
  | arg :: rest =>
      if is_flag arg "--root" "-r" then
        match rest with
        | v :: rest' => parseBaseArgs rest' (base_set_root (Some v) result)
        | [] => base_set_root None result
        end
      else if is_flag arg "--index" "-i" then
        match rest with
        | v :: rest' => parseBaseArgs rest' (base_set_indexDir (Some v) result)
        | [] => base_set_indexDir None result
        end
      else if is_flag arg "--help" "-h" then
        parseBaseArgs rest
          {| base_options := base_options result; base_help := true;
             base_version := base_version result |}
      else if is_flag arg "--version" "-v" then
        parseBaseArgs rest
          {| base_options := base_options result;
             base_help := base_help result; base_version := true |}
      else parseBaseArgs rest result
  end.

(** [createRequire(import.meta.url)('../package.json')]: the file is looked
    up from the place of the script, read and parsed.
    [require_package_json disk] is the value, or the error thrown when the
    file is not found or is not JSON. *)
Class NodeModule : Type := {
  require_package_json : gmap string file → json + error
}.

Definition require_package `{NodeModule} : M json := λ st,
  match require_package_json (fs st) with
  | inl pkg => (Return pkg, st)
  | inr err => (Throw err, st)
  end.

(** [main] of index-workspace.mjs, with the handler of [main().catch].  The
    help text and the version line go to the output stream; for the version
    line the package file is loaded and its [version] read, which throws on
    [null].  ([import('module')] is of a built-in module and returns.) *)
Definition index_main `{NodePath, Quarrel, Builtins, TextTools, NodeModule}
    (s : script) (args : list string) (tree : listing) : M unit :=
  try_catch
    (let options := parseBaseArgs args no_base_args in
     if base_help options then process_exit 0
     else if base_version options then
       pkg ← require_package;
       _ ← lift (json_get pkg "version");
       process_exit 0
     else buildIndex s (base_options options) tree)
    (λ err,
       _ ← console_error ("Index build failed: " +:+ error_message err);
       process_exit 1).

(** The object [parseArgs] of the query script fills. *)
Record FindArgs : Type := {
  fa_query : option string;
  fa_isText : bool;
  fa_top : number;
  fa_threshold : number;
  fa_indexDir : option string;
  fa_json : bool;
  fa_help : bool
}.

Definition initial_find_args : FindArgs := {|
  fa_query := None;
  fa_isText := false;
  fa_top := cfg_top DEFAULT_CONFIG;
  fa_threshold := cfg_threshold DEFAULT_CONFIG;
  fa_indexDir := None;
  fa_json := false;
  fa_help := false
|}.

(** [arg.startsWith('-')] *)
Definition startsWith_dash (s : string) : bool :=
  match s with
  | String "-"%char _ => true
  | _ => false
  end.

(** The effect of the word [arg] at a flag position; [value] is the word
    after it, [undefined] at the end of the command line.  The second
    component tells whether [value] was taken ([args[++i]]). *)
Definition find_arg_step `{NumberParsing} (arg : string)
    (value : option string) (r : FindArgs) : FindArgs * bool :=
  if is_flag arg "--text" "-t" then
    ({| fa_query := value; fa_isText := true; fa_top := fa_top r;
        fa_threshold := fa_threshold r; fa_indexDir := fa_indexDir r;
        fa_json := fa_json r; fa_help := fa_help r |}, true)
  else if is_flag arg "--top" "-n" then
    ({| fa_query := fa_query r; fa_isText := fa_isText r;
        fa_top := parseInt10 value;
        fa_threshold := fa_threshold r; fa_indexDir := fa_indexDir r;
        fa_json := fa_json r; fa_help := fa_help r |}, true)
  else if bool_decide (arg = "--threshold") then
    ({| fa_query := fa_query r; fa_isText := fa_isText r; fa_top := fa_top r;
        fa_threshold := parseFloat value; fa_indexDir := fa_indexDir r;
        fa_json := fa_json r; fa_help := fa_help r |}, true)
  else if is_flag arg "--index" "-i" then
    ({| fa_query := fa_query r; fa_isText := fa_isText r; fa_top := fa_top r;
        fa_threshold := fa_threshold r; fa_indexDir := value;
        fa_json := fa_json r; fa_help := fa_help r |}, true)
  else if bool_decide (arg = "--json") then
    ({| fa_query := fa_query r; fa_isText := fa_isText r; fa_top := fa_top r;
        fa_threshold := fa_threshold r; fa_indexDir := fa_indexDir r;
        fa_json := true; fa_help := fa_help r |}, false)
  else if is_flag arg "--help" "-h" then
    ({| fa_query := fa_query r; fa_isText := fa_isText r; fa_top := fa_top r;
        fa_threshold := fa_threshold r; fa_indexDir := fa_indexDir r;
        fa_json := fa_json r; fa_help := true |}, false)
  else if negb (startsWith_dash arg) then
    ({| fa_query := Some arg; fa_isText := fa_isText r; fa_top := fa_top r;
        fa_threshold := fa_threshold r; fa_indexDir := fa_indexDir r;
        fa_json := fa_json r; fa_help := fa_help r |}, false)
  else (r, false).

(** The [while] loop of [parseArgs]. *)
Fixpoint parseArgs_from `{NumberParsing} (args : list string) (r : FindArgs)
  : FindArgs :=
  match args with
  | [] => r
  | arg :: rest =>
      let step := find_arg_step arg (head rest) r in
      if step.2 then
        match rest with
        | _ :: rest' => parseArgs_from rest' step.1
        | [] => step.1
        end
      else parseArgs_from rest step.1
  end.

(** [parseArgs(args)] *)
Definition parseArgs `{NumberParsing} (args : list string) : FindArgs :=
  parseArgs_from args initial_find_args.

(** An entry reports the score [k]. *)
Definition has_score (k : Q) (r : SimilarFile) : bool :=
  match res_similarity r with
  | Num q => Qeq_bool q k
  | NaN => false
  end.

(** The weight read back from the index for a weight [x] of the vectorizer. *)
Definition stored_weight (x : number) : number :=
  if num_nonzero x then round4 x else Num 0.

(** Decimal digits only, and their value. *)
Fixpoint digits_value (acc : nat) (s : string) : option nat :=
  match s with
  | EmptyString => Some acc
  | String c rest =>
      let n := nat_of_ascii c in
      if decide (48 ≤ n ≤ 57)%nat
      then digits_value (10 * acc + (n - 48)) rest
      else None
  end.

(** A parser for the decimal integers, with or without a minus sign; it
    stands for [parseInt] and [parseFloat] on such words. *)
Definition parse_integer (word : option string) : number :=
  match word with
  | Some (String "-"%char (String c rest)) =>
      match digits_value 0 (String c rest) with
      | Some n => num_of_Z (- Z.of_nat n)
      | None => NaN
      end
  | Some (String c rest) =>
      match digits_value 0 (String c rest) with
      | Some n => num_of_Z (Z.of_nat n)
      | None => NaN
      end
  | _ => NaN
  end.

#[local] Instance integer_parsing : NumberParsing := {|
  parseInt10 := parse_integer;
  parseFloat := parse_integer
|}.

(** The package file of a script installed below [/opt/similar-files]. *)
#[local] Instance installed : NodeModule := {|
  require_package_json := λ disk,
    match read_result disk "/opt/similar-files/package.json" with
    | inl data =>
        match table_parse data with
        | Some pkg => inl pkg
        | None => inr json_syntax_error
        end
    | inr _ => inr (JsError "Error" "Cannot find module '../package.json'")
    end
|}.

(** The property reads on a parsed index of the shape [buildIndex] writes;
    a property that is missing or of another type reads as empty. *)
Definition json_string (v : option json) : string :=
  match v with
  | Some (JStr s) => s
  | _ => ""
  end.

Definition json_number (v : option json) : number :=
  match v with
  | Some (JNum q) => Num q
  | _ => NaN
  end.

Definition json_nat (v : option json) : nat :=
  match v with
  | Some (JNum q) => Z.to_nat (Qfloor q)
  | _ => 0%nat
  end.

Definition json_items (v : option json) : list json :=
  match v with
  | Some (JArr items) => items
  | _ => []
  end.

Definition metadata_of_json (j : json) : DocumentMetadata := {|
  meta_id := json_string (json_field j "id");
  meta_path := json_string (json_field j "path");
  meta_title := json_string (json_field j "title");
  meta_fingerprint := json_string (json_field j "fingerprint");
  meta_ext := json_string (json_field j "ext");
  meta_tags :=
    match json_field j "tags" with
    | Some (JArr items) => Some ((λ v, json_string (Some v)) <$> items)
    | _ => None
    end
|}.

Definition vector_of_json (j : json) : gmap nat number :=
  match j with
  | JObj fields =>
      list_to_map
        (omap (λ kv : string * json,
                 idx ← digits_value 0 kv.1; Some (idx, json_number (Some kv.2)))
              (map_to_list fields))
  | _ => ∅
  end.

Definition index_of_json (j : json) : Index := {|
  version := json_number (json_field j "version");
  created := json_string (json_field j "created");
  root :=
    match json_field j "root" with
    | Some (JStr r) => Some r
    | _ => None
    end;
  hashDim := json_nat (json_field j "hashDim");
  docCount := json_nat (json_field j "docCount");
  metadata := metadata_of_json <$> json_items (json_field j "metadata");
  vectors := vector_of_json <$> json_items (json_field j "vectors")
|}.

#[local] Instance reading : IndexView := {|
  as_index := index_of_json
|}.

(** An index with other metadata records. *)
Definition with_metadata (index : Index) (records : list DocumentMetadata)
  : Index :=
  {| version := version index; created := created index; root := root index;
     hashDim := hashDim index; docCount := docCount index;
     metadata := records; vectors := vectors index |}.

(** The error of reading [.path] of a metadata record that is not there. *)
Definition missing_metadata_error : error :=
  JsError "TypeError" "Cannot read properties of undefined (reading 'path')".

(** * Properties *)

(** ** Numbers *)

Lemma num_ge_spec a b : num_ge a b = true ↔ num_le b a.
Proof.
  destruct a as [x|], b as [y|]; simpl; try (split; [discriminate | tauto]).
  apply Qle_bool_iff.
Qed.

Lemma num_ge_is_Num a b : num_ge a b = true → is_Num a ∧ is_Num b.
Proof. destruct a, b; simpl; try discriminate; tauto. Qed.

Lemma Qfloor_half (k : Z) (x : Q) : (x == inject_Z k)%Q → Qfloor (x + (1 # 2)) = k.
Proof.
  intros Hx.
  assert (Heq : (x + (1 # 2) == (2 * k + 1) # 2)%Q).
  { rewrite Hx. unfold Qeq, Qplus, inject_Z. simpl. lia. }
  rewrite (Qfloor_comp _ _ Heq). unfold Qfloor.
  symmetry. apply (Z.div_unique _ _ k 1); lia.
Qed.

Lemma round_scaled (d : positive) (q : Q) :
  num_div (Math_round (num_mul (Num q) (Num (inject_Z (Zpos d)))))
          (Num (inject_Z (Zpos d)))
  = Num ((Qfloor (q * inject_Z (Zpos d) + (1 # 2)) * 1)%Z # d).
Proof.
  unfold num_div, Math_round, num_mul, num_of_Z.
  destruct (Qeq_bool (inject_Z (Z.pos d)) 0) eqn:E.
  - apply Qeq_bool_iff in E. unfold Qeq, inject_Z in E. simpl in E. lia.
  - reflexivity.
Qed.

Lemma round4_Num q :
  round4 (Num q) = Num ((Qfloor (q * 10000 + (1 # 2)) * 1)%Z # 10000).
Proof. apply (round_scaled 10000). Qed.

Lemma round2_Num q :
  round2 (Num q) = Num ((Qfloor (q * 100 + (1 # 2)) * 1)%Z # 100).
Proof. apply (round_scaled 100). Qed.

(** Rounding a rounded weight changes nothing: the stored weights are fixed
    points of [round4]. *)
Lemma round4_idempotent x : round4 (round4 x) = round4 x.
Proof.
  destruct x as [q|]; [|reflexivity].
  rewrite !round4_Num, !Z.mul_1_r. do 2 f_equal.
  apply Qfloor_half. unfold Qeq, Qmult, inject_Z. simpl. lia.
Qed.

Lemma round2_monotone a b : num_le a b → num_le (round2 a) (round2 b).
Proof.
  destruct a as [x|], b as [y|]; try (simpl; tauto).
  intros Hxy. simpl in Hxy. rewrite !round2_Num.
  cbn [num_le]. unfold Qle. cbn [Qnum Qden]. rewrite !Z.mul_1_r.
  apply Z.mul_le_mono_nonneg_r; [lia|].
  apply Qfloor_resp_le.
  apply Qplus_le_compat; [|apply Qle_refl].
  apply Qmult_le_compat_r; [exact Hxy | discriminate].
Qed.

Lemma round2_is_Num a : is_Num a → is_Num (round2 a).
Proof. destruct a; [rewrite round2_Num|]; simpl; tauto. Qed.

Lemma num_pos_sub a b :
  is_Num a → is_Num b → (num_pos (num_sub b a) = true ↔ num_lt a b).
Proof.
  destruct a as [x|], b as [y|]; simpl; try tauto. intros _ _.
  rewrite negb_true_iff, <- not_true_iff_false, Qle_bool_iff.
  split.
  - intros Hn. apply Qnot_le_lt in Hn. by apply Qlt_minus_iff.
  - intros Hlt. apply Qlt_not_le. by apply Qlt_minus_iff in Hlt.
Qed.

Lemma num_lt_le a b : num_lt a b → num_le a b.
Proof. destruct a, b; simpl; try tauto. apply Qlt_le_weak. Qed.

Lemma num_not_lt_le a b : is_Num a → is_Num b → ¬ num_lt a b → num_le b a.
Proof. destruct a, b; simpl; try tauto. intros _ _. apply Qnot_lt_le. Qed.

Lemma num_le_trans a b c : num_le a b → num_le b c → num_le a c.
Proof. destruct a, b, c; simpl; try tauto. apply Qle_trans. Qed.

(** ** Arrays: sort and slice *)

Section sort.
Context {A : Type} (cmp : A → A → number).

Lemma sort_insert_perm x l : sort_insert cmp x l ≡ₚ x :: l.
Proof.
  induction l as [|y l IH]; simpl; [reflexivity|].
  destruct (num_pos (cmp x y)); [|reflexivity].
  rewrite IH. apply Permutation_swap.
Qed.

Lemma Array_sort_perm l : Array_sort cmp l ≡ₚ l.
Proof.
  induction l as [|x l IH]; simpl; [reflexivity|].
  unfold Array_sort in *. simpl. rewrite sort_insert_perm. by f_equiv.
Qed.

Lemma elem_of_Array_sort x l : x ∈ Array_sort cmp l ↔ x ∈ l.
Proof. by rewrite Array_sort_perm. Qed.

End sort.

Lemma Array_slice0_take {A : Type} (l : list A) (n : number) :
  ∃ k, Array_slice0 l n = take k l.
Proof. unfold Array_slice0. eauto. Qed.

Lemma elem_of_Array_slice0 {A : Type} (x : A) l n :
  x ∈ Array_slice0 l n → x ∈ l.
Proof.
  destruct (Array_slice0_take l n) as [k ->]. apply subseteq_take.
Qed.

Lemma length_Array_slice0 {A : Type} (l : list A) (n : number) :
  (0 ≤ ToIntegerOrInfinity n)%Z →
  (Z.of_nat (length (Array_slice0 l n)) ≤ ToIntegerOrInfinity n)%Z.
Proof.
  intros Hn. unfold Array_slice0.
  destruct (Z.ltb_spec (ToIntegerOrInfinity n) 0); [lia|].
  rewrite length_take. lia.
Qed.

(** A limit that is an integer is read as it is. *)
Lemma ToIntegerOrInfinity_of_Z z : ToIntegerOrInfinity (num_of_Z z) = z.
Proof.
  unfold ToIntegerOrInfinity, num_of_Z, inject_Z. simpl. apply Z.quot_1_r.
Qed.

(** The sort leaves the reported scores in descending order as soon as all
    of them are numbers. *)
Section by_similarity.
Let R (a b : SimilarFile) : Prop :=
  num_le (res_similarity b) (res_similarity a).
Let numeric (r : SimilarFile) : Prop := is_Num (res_similarity r).

Lemma sort_insert_by_similarity x l :
  numeric x → Forall numeric l → StronglySorted R l →
  StronglySorted R (sort_insert by_similarity x l).
Proof.
  intros Hx Hl Hs. induction Hs as [|y l Hs IH Hy]; simpl.
  - repeat constructor.
  - apply Forall_cons in Hl as [Hny Hl].
    destruct (num_pos (by_similarity x y)) eqn:E.
    + constructor; [by apply IH|].
      rewrite sort_insert_perm. constructor; [|done].
      apply num_lt_le. by apply num_pos_sub.
    + assert (Hxy : R x y).
      { apply num_not_lt_le; [done..|].
        intros Hlt. apply num_pos_sub in Hlt; [|done..].
        unfold by_similarity in E. congruence. }
      constructor; [by constructor|].
      constructor; [done|].
      eapply Forall_impl; [exact Hy|].
      intros z Hz. unfold R in *. by eapply num_le_trans.
Qed.

Lemma Array_sort_by_similarity l :
  Forall numeric l → reported_descending (Array_sort by_similarity l).
Proof.
  unfold reported_descending, Array_sort.
  induction 1 as [|x l Hx Hl IH]; simpl; [constructor|].
  apply sort_insert_by_similarity; [done| |done].
  fold (Array_sort by_similarity l). by rewrite Array_sort_perm.
Qed.

Lemma reported_descending_slice l n :
  reported_descending l → reported_descending (Array_slice0 l n).
Proof.
  destruct (Array_slice0_take l n) as [k ->]. unfold reported_descending.
  rewrite <- (take_drop k l) at 1. apply StronglySorted_app_1_l.
Qed.
End by_similarity.

(** ** The ranking loop *)

Ltac run :=
  repeat (unfold mbind, mret, M_bind, M_ret, outcome_bind, outcome_ret,
            lift, throw, process_exit, try_catch, get_cwd, get_now,
            console_warn, console_error, readFile in *;
          cbn beta iota zeta in *).

Section ranking.
Context `{NodePath, Quarrel}.
Variables (index : Index) (options : FindOptions) (qc : QueryContent).

Let wr := workspaceRoot_of index.
Let qv := queryVector_of index qc.

(** The loop returns the kept candidates, presented, in index order; when
    it returns at all. *)
Lemma scan_Return i vecs acc results :
  scan index options wr qc qv i vecs acc = Return results →
  results = acc ++ (present_scored <$>
    List.filter (keeps index options qc)
      (score index qc <$> zip (drop i (metadata index)) vecs)).
Proof.
  revert i acc. induction vecs as [|v rest IH]; intros i acc.
  - simpl. intros [= <-]. rewrite zip_with_nil_r. simpl.
    by rewrite app_nil_r.
  - cbn [scan]. unfold metadata_at.
    destruct (metadata index !! i) as [m|] eqn:Hm.
    + rewrite (drop_S _ _ _ Hm). cbn [zip_with fmap list_fmap List.filter].
      unfold keeps at 1. cbn [score fst snd]. fold qv. fold wr.
      destruct (find_isText options) eqn:Ht; run.
      * destruct (num_ge _ _); cbn [negb andb].
        -- intros Hs. apply IH in Hs. rewrite Hs, <- app_assoc. done.
        -- apply IH.
      * destruct (is_self wr qc m); cbn [negb andb]; [apply IH|].
        destruct (num_ge _ _).
        -- intros Hs. apply IH in Hs. rewrite Hs, <- app_assoc. done.
        -- apply IH.
    + rewrite (drop_ge (metadata index) i)
        by (by apply lookup_ge_None).
      cbn [zip_with fmap list_fmap List.filter].
      destruct (find_isText options) eqn:Ht; run; [|discriminate].
      destruct (num_ge _ _); [discriminate|].
      intros Hs. apply IH in Hs. rewrite Hs.
      rewrite (drop_ge (metadata index) (S i)); [done|].
      apply lookup_ge_None in Hm. lia.
Qed.

Lemma scan_all results :
  scan index options wr qc qv 0 (vectors index) [] = Return results →
  results = present_scored <$> kept index options qc.
Proof. intros Hs. apply scan_Return in Hs. by rewrite Hs. Qed.

(** What is kept has a numeric score, the threshold is a number, and the
    score reaches it. *)
Lemma keeps_threshold ms :
  keeps index options qc ms = true →
  num_le (find_threshold options) ms.2 ∧ is_Num ms.2.
Proof.
  unfold keeps. rewrite andb_true_iff. intros [_ Hge]. split.
  - by apply num_ge_spec.
  - by apply num_ge_is_Num in Hge as [? _].
Qed.

Lemma keeps_not_self ms :
  find_isText options = false →
  keeps index options qc ms = true → is_self wr qc ms.1 = false.
Proof.
  unfold keeps. intros ->. rewrite andb_true_iff. simpl.
  intros [Hs _]. by apply negb_true_iff in Hs.
Qed.

Lemma elem_of_kept ms :
  ms ∈ kept index options qc →
  keeps index options qc ms = true
  ∧ ∃ i v, metadata index !! i = Some ms.1 ∧ vectors index !! i = Some v
           ∧ ms = score index qc (ms.1, v).
Proof.
  unfold kept. rewrite list_elem_of_In, filter_In, <- list_elem_of_In.
  intros [Hin Hk]. split; [done|].
  unfold scored in Hin. apply list_elem_of_fmap in Hin as ([m v] & -> & Hin).
  apply list_elem_of_lookup in Hin as [i Hi].
  apply lookup_zip_with_Some in Hi as (m' & v' & [= <- <-] & Hm & Hv).
  exists i, v. done.
Qed.
End ranking.

(** ** The query *)

Section query.
Context `{NodePath, Quarrel}.

Lemma getQueryContent_Return query isText wr st qc st' :
  getQueryContent query isText wr st = (Return qc, st') →
  st' = st
  ∧ if isText then
      qc = {| qc_content := query; qc_title := "Query";
              qc_absolutePath := None |}
    else
      qc_absolutePath qc = Some (query_file_path (cwd st) query)
      ∧ qc_title qc = match wr with
                      | Some w => relative w (query_file_path (cwd st) query)
                      | None => query
                      end.
Proof.
  unfold getQueryContent. destruct isText; run.
  - by intros [= <- <-].
  - destruct (read_result _ _); run; [|discriminate].
    by intros [= <- <-].
Qed.

(** [findSimilar], when it returns: the kept candidates are presented with
    the rounded score, then sorted on that score, then cut. *)
Lemma findSimilar_Return index options st found st' :
  findSimilar index options st = (Return found, st') →
  ∃ qc,
    getQueryContent (find_query options) (find_isText options)
                    (workspaceRoot_of index) st = (Return qc, st')
    ∧ found_results found =
        Array_slice0
          (Array_sort by_similarity
             (present_scored <$> kept index options qc))
          (find_top options).
Proof.
  unfold findSimilar. run.
  destruct (getQueryContent _ _ _ st) as [[qc| |] st1] eqn:Hq;
    [|discriminate..].
  destruct (scan _ _ _ _ _ _ _ _) as [results| |] eqn:Hs; [|discriminate..].
  intros [= <- <-]. exists qc. split; [done|]. simpl.
  by rewrite (scan_all _ _ _ _ Hs).
Qed.
End query.

Section query_claims.
Context `{NodePath, Quarrel}.

Lemma is_self_true wr qc m :
  is_self wr qc m = true ↔
  (∃ a, qc_absolutePath qc = Some a ∧ a ≠ ""
        ∧ docAbsPath_of wr (meta_path m) = a)
  ∨ meta_path m = qc_title qc.
Proof.
  unfold is_self. rewrite orb_true_iff, bool_decide_eq_true.
  apply or_iff_compat_r.
  destruct (qc_absolutePath qc) as [a|]; split.
  - rewrite andb_true_iff, bool_decide_eq_true. intros [Ht Hd].
    exists a. split_and!; [done| |done]. by intros ->.
  - intros (a' & [= <-] & Ha & Hd).
    rewrite andb_true_iff, bool_decide_eq_true. split; [|done].
    by destruct a.
  - discriminate.
  - by intros (a & [=] & _).
Qed.

Lemma elem_of_results index options qc r :
  r ∈ Array_slice0
        (Array_sort by_similarity (present_scored <$> kept index options qc))
        (find_top options) →
  ∃ ms, ms ∈ kept index options qc ∧ r = present_scored ms.
Proof.
  intros Hr. apply elem_of_Array_slice0, elem_of_Array_sort in Hr.
  apply list_elem_of_fmap in Hr as (ms & -> & Hms). eauto.
Qed.

(** C1, as the code has it: when [findSimilar] returns, every entry of the
    result list comes from an indexed document whose full-precision
    similarity is at least the threshold [t], and its reported score is that
    similarity rounded to two decimals, hence at least [t] rounded (it can
    lie below [t] itself); the list has at most [n] entries for a limit
    [n] that is not negative; and the list is in descending order of the
    reported scores. *)
Theorem findSimilar_threshold_topN index options st found st' :
  findSimilar index options st = (Return found, st') →
  ∃ qc,
    getQueryContent (find_query options) (find_isText options)
                    (workspaceRoot_of index) st = (Return qc, st')
    ∧ (∀ r, r ∈ found_results found →
         ∃ i m v,
           metadata index !! i = Some m ∧ vectors index !! i = Some v
           ∧ r = present m (score index qc (m, v)).2
           ∧ num_le (find_threshold options) (score index qc (m, v)).2
           ∧ num_le (round2 (find_threshold options)) (res_similarity r))
    ∧ ((0 ≤ ToIntegerOrInfinity (find_top options))%Z →
       (Z.of_nat (length (found_results found))
        ≤ ToIntegerOrInfinity (find_top options))%Z)
    ∧ reported_descending (found_results found).
Proof.
  intros Hf. apply findSimilar_Return in Hf as (qc & Hq & ->).
  exists qc. split_and!; [done| | |].
  - intros r Hr. apply elem_of_results in Hr as (ms & Hms & ->).
    apply elem_of_kept in Hms as (Hk & i & v & Hm & Hv & Hs).
    apply keeps_threshold in Hk as [Ht _].
    exists i, ms.1, v. rewrite <- Hs. split_and!; [done..|].
    by apply round2_monotone.
  - apply length_Array_slice0.
  - apply reported_descending_slice, Array_sort_by_similarity.
    apply Forall_fmap, Forall_forall. intros ms Hms.
    apply elem_of_kept in Hms as [Hk _].
    apply keeps_threshold in Hk as [_ Hn]. by apply round2_is_Num.
Qed.

(** C2, as the code has it: when [findSimilar] returns, the candidates are
    compared with the threshold on their full-precision similarity, each
    one kept is given its score rounded to two decimals, and the sort then
    orders the entries by these rounded scores, before the cut to the
    limit. *)
Theorem findSimilar_rounds_before_sorting index options st found st' :
  findSimilar index options st = (Return found, st') →
  ∃ qc,
    getQueryContent (find_query options) (find_isText options)
                    (workspaceRoot_of index) st = (Return qc, st')
    ∧ found_results found =
        Array_slice0
          (Array_sort by_similarity
             (present_scored <$> kept index options qc))
          (find_top options)
    ∧ (∀ ms, ms ∈ kept index options qc →
         ms ∈ scored index qc
         ∧ num_ge ms.2 (find_threshold options) = true)
    ∧ (∀ r, r ∈ found_results found →
         ∃ ms, ms ∈ kept index options qc
               ∧ res_similarity r = round2 ms.2)
    ∧ reported_descending (found_results found).
Proof.
  intros Hf. apply findSimilar_Return in Hf as (qc & Hq & ->).
  exists qc. split_and!; [done..| | |].
  - intros ms. unfold kept.
    rewrite list_elem_of_In, filter_In, <- list_elem_of_In.
    unfold keeps. rewrite andb_true_iff. tauto.
  - intros r Hr. apply elem_of_results in Hr as (ms & Hms & ->). eauto.
  - apply reported_descending_slice, Array_sort_by_similarity.
    apply Forall_fmap, Forall_forall. intros ms Hms.
    apply elem_of_kept in Hms as [Hk _].
    apply keeps_threshold in Hk as [_ Hn]. by apply round2_is_Num.
Qed.

(** C3: for a query that names a file, when [findSimilar] returns, an
    indexed document whose path resolves to the absolute path of the query
    file, or whose path is the query file's path relative to the workspace
    root, is in no entry of the result list, whatever its similarity and the
    threshold. *)
Theorem findSimilar_excludes_self index options st found st' m r :
  find_isText options = false →
  findSimilar index options st = (Return found, st') →
  m ∈ metadata index →
  (query_file_path (cwd st) (find_query options) ≠ ""
   ∧ docAbsPath_of (workspaceRoot_of index) (meta_path m)
     = query_file_path (cwd st) (find_query options))
  ∨ meta_path m
    = match workspaceRoot_of index with
      | Some w => relative w (query_file_path (cwd st) (find_query options))
      | None => find_query options
      end →
  r ∈ found_results found →
  res_path r ≠ meta_path m.
Proof.
  intros Ht Hf _ Hself Hr Hpath.
  apply findSimilar_Return in Hf as (qc & Hq & Hres).
  rewrite Hres in Hr. apply elem_of_results in Hr as (ms & Hms & ->).
  apply elem_of_kept in Hms as [Hk _].
  apply (keeps_not_self _ _ _ _ Ht) in Hk.
  apply getQueryContent_Return in Hq as [-> Hqc]. rewrite Ht in Hqc.
  destruct Hqc as [Habs Htitle].
  assert (Hm : is_self (workspaceRoot_of index) qc m = true).
  { apply is_self_true. rewrite Habs, Htitle.
    destruct Hself as [[Hne Hd]|Hrel]; [left|by right].
    eexists. split_and!; done. }
  apply is_self_true in Hm. apply not_true_iff_false in Hk. apply Hk.
  apply is_self_true. simpl in Hpath. rewrite Hpath. exact Hm.
Qed.
End query_claims.

Lemma findSimilar_threshold_topN_witness :
  findSimilar near_index near_options (workspace ∅)
  = (Return near_found, workspace ∅)
  ∧ ∃ qc,
      getQueryContent (find_query near_options) (find_isText near_options)
                      (workspaceRoot_of near_index) (workspace ∅)
      = (Return qc, workspace ∅)
      ∧ (∀ r, r ∈ found_results near_found →
           ∃ i m v,
             metadata near_index !! i = Some m
             ∧ vectors near_index !! i = Some v
             ∧ r = present m (score near_index qc (m, v)).2
             ∧ num_le (find_threshold near_options)
                      (score near_index qc (m, v)).2
             ∧ num_le (round2 (find_threshold near_options))
                      (res_similarity r))
      ∧ ((0 ≤ ToIntegerOrInfinity (find_top near_options))%Z →
         (Z.of_nat (length (found_results near_found))
          ≤ ToIntegerOrInfinity (find_top near_options))%Z)
      ∧ reported_descending (found_results near_found).
Proof.
  split; [vm_compute; reflexivity|].
  apply (findSimilar_threshold_topN near_index near_options (workspace ∅)
           near_found (workspace ∅)).
  vm_compute; reflexivity.
Defined.

(** On [near_index] with the threshold 0.1005 the script returns both
    documents, each reported as 0.1, the one scoring 0.101 before the one
    scoring 0.104.  The reported scores are below the threshold, and the
    full-precision scores are not in descending order: the contract fails for
    either reading of the score.  With the limit -1 the script returns one
    entry, which is more than the limit. *)
Lemma threshold_topN_contract_fails :
  findSimilar near_index near_options (workspace ∅)
  = (Return near_found, workspace ∅)
  ∧ ¬ threshold_topN_contract res_similarity
        (find_threshold near_options) (find_top near_options)
        (found_results near_found)
  ∧ ¬ threshold_topN_contract (full_score near_index near_qc)
        (find_threshold near_options) (find_top near_options)
        (found_results near_found)
  ∧ findSimilar near_index near_options_minus_one (workspace ∅)
    = (Return near_found_minus_one, workspace ∅)
  ∧ ¬ threshold_topN_contract res_similarity
        (find_threshold near_options_minus_one)
        (find_top near_options_minus_one)
        (found_results near_found_minus_one)
  ∧ ¬ threshold_topN_contract (full_score near_index near_qc)
        (find_threshold near_options_minus_one)
        (find_top near_options_minus_one)
        (found_results near_found_minus_one).
Proof.
  split_and!.
  - vm_compute; reflexivity.
  - intros (Hall & _ & _). apply Forall_cons in Hall as [Hfirst _].
    vm_compute in Hfirst. by apply Hfirst.
  - intros (_ & _ & Hsorted). apply StronglySorted_inv in Hsorted as [_ Hrest].
    apply Forall_cons in Hrest as [Hsecond _].
    vm_compute in Hsecond. by apply Hsecond.
  - vm_compute; reflexivity.
  - intros (_ & Hlen & _). vm_compute in Hlen. by apply Hlen.
  - intros (_ & Hlen & _). vm_compute in Hlen. by apply Hlen.
Qed.

Lemma findSimilar_rounds_before_sorting_witness :
  findSimilar near_index near_options (workspace ∅)
  = (Return near_found, workspace ∅)
  ∧ ∃ qc,
      getQueryContent (find_query near_options) (find_isText near_options)
                      (workspaceRoot_of near_index) (workspace ∅)
      = (Return qc, workspace ∅)
      ∧ found_results near_found =
          Array_slice0
            (Array_sort by_similarity
               (present_scored <$> kept near_index near_options qc))
            (find_top near_options)
      ∧ (∀ ms, ms ∈ kept near_index near_options qc →
           ms ∈ scored near_index qc
           ∧ num_ge ms.2 (find_threshold near_options) = true)
      ∧ (∀ r, r ∈ found_results near_found →
           ∃ ms, ms ∈ kept near_index near_options qc
                 ∧ res_similarity r = round2 ms.2)
      ∧ reported_descending (found_results near_found).
Proof.
  split; [vm_compute; reflexivity|].
  apply (findSimilar_rounds_before_sorting near_index near_options
           (workspace ∅) near_found (workspace ∅)).
  vm_compute; reflexivity.
Defined.

(** On [near_index] the script lists the document scoring 0.101 before the
    one scoring 0.104, as both are reported as 0.1 and the sort sees the
    reported scores only; sorting on full precision, as the specification
    words it, lists the one scoring 0.104 first. *)
Lemma sort_not_on_full_precision :
  findSimilar near_index near_options (workspace ∅)
  = (Return near_found, workspace ∅)
  ∧ res_path <$> found_results near_found = ["a.md"; "b.md"]
  ∧ res_path <$> spec_rank near_index near_options near_qc = ["b.md"; "a.md"]
  ∧ found_results near_found ≠ spec_rank near_index near_options near_qc.
Proof.
  split_and!; [vm_compute; reflexivity..|].
  intros Heq. apply (f_equal (fmap res_path)) in Heq.
  vm_compute in Heq. discriminate.
Qed.

Lemma findSimilar_excludes_self_witness :
  find_isText self_options = false
  ∧ findSimilar self_index self_options (workspace self_disk)
    = (Return self_found, workspace self_disk)
  ∧ meta_of "a.md" "a" ∈ metadata self_index
  ∧ present (meta_of "b.md" "b") (Num (6 # 10)) ∈ found_results self_found
  ∧ res_path (present (meta_of "b.md" "b") (Num (6 # 10)))
    ≠ meta_path (meta_of "a.md" "a").
Proof.
  split_and!.
  - reflexivity.
  - vm_compute; reflexivity.
  - apply list_elem_of_here.
  - apply list_elem_of_here.
  - apply (findSimilar_excludes_self self_index self_options
             (workspace self_disk) self_found (workspace self_disk)
             (meta_of "a.md" "a")).
    + reflexivity.
    + vm_compute; reflexivity.
    + apply list_elem_of_here.
    + right. vm_compute; reflexivity.
    + apply list_elem_of_here.
Defined.

(** ** The sparse encoding *)

Lemma toSparse_from_lookup vec i (sparse : gmap nat number) k :
  toSparse_from i vec sparse !! k =
  match vec !! (k - i)%nat with
  | Some x =>
      if decide (i ≤ k)%nat then
        if num_nonzero x then Some (round4 x) else sparse !! k
      else sparse !! k
  | None => sparse !! k
  end.
Proof.
  revert i sparse. induction vec as [|x rest IH]; intros i sparse; [done|].
  cbn [toSparse_from]. rewrite IH.
  destruct (decide (i ≤ k)%nat) as [Hik|Hik].
  - destruct (decide (k = i)) as [->|Hne].
    + rewrite Nat.sub_diag. cbn [lookup list_lookup].
      replace (i - S i)%nat with 0%nat by lia.
      destruct rest as [|y rest']; cbn [lookup list_lookup];
        [|destruct (decide (S i ≤ i)%nat); [lia|]];
        destruct (num_nonzero x); by rewrite ?lookup_insert_eq.
    + replace (k - i)%nat with (S (k - S i)) by lia. cbn [lookup list_lookup].
      assert (Hother :
        (if num_nonzero x then <[i:=round4 x]> sparse else sparse) !! k
        = sparse !! k).
      { destruct (num_nonzero x); [|done]. by rewrite lookup_insert_ne. }
      rewrite Hother.
      destruct ((rest : list number) !! (k - S i)%nat); [|done].
      destruct (decide (S i ≤ k)%nat); [done|lia].
  - replace (k - S i)%nat with 0%nat by lia.
    replace (k - i)%nat with 0%nat by lia.
    assert (Hother :
      (if num_nonzero x then <[i:=round4 x]> sparse else sparse) !! k
      = sparse !! k).
    { destruct (num_nonzero x); [|done]. rewrite lookup_insert_ne; [done|lia]. }
    cbn [lookup list_lookup]. rewrite Hother.
    destruct rest as [|y rest']; cbn [lookup list_lookup]; [done|].
    destruct (decide (S i ≤ k)%nat); [lia|done].
Qed.

(** The sparse vector holds the rounded weight at every index whose weight is
    not zero, and nothing else. *)
Lemma toSparse_lookup (vec : list number) k :
  toSparse vec !! k =
  match vec !! k with
  | Some x => if num_nonzero x then Some (round4 x) else None
  | None => None
  end.
Proof.
  unfold toSparse. rewrite toSparse_from_lookup, Nat.sub_0_r.
  destruct (vec !! k); [|done].
  destruct (decide (0 ≤ k)%nat); [|lia]. by destruct (num_nonzero _).
Qed.

(** Expanding a sparse vector whose indices lie below the dimension: a
    vector of that dimension with the stored weights, zero elsewhere. *)
Lemma expandSparseVector_lookup (sparse : gmap nat number) dim :
  (∀ k, is_Some (sparse !! k) → (k < dim)%nat) →
  length (expandSparseVector sparse dim) = dim
  ∧ ∀ k, (k < dim)%nat →
      expandSparseVector sparse dim !! k
      = Some (default (Num 0) (sparse !! k)).
Proof.
  unfold expandSparseVector.
  apply (map_fold_weak_ind (λ dense (m : gmap nat number),
    (∀ k, is_Some (m !! k) → (k < dim)%nat) →
    length dense = dim
    ∧ ∀ k, (k < dim)%nat → dense !! k = Some (default (Num 0) (m !! k)))).
  - intros _. split; [apply length_replicate|].
    intros k Hk. rewrite lookup_empty. by apply lookup_replicate_2.
  - intros i x m dense Hfresh IH Hkeys.
    assert (Hi : (i < dim)%nat).
    { apply Hkeys. rewrite lookup_insert_eq. eauto. }
    destruct IH as [Hlen Hlook].
    { intros k Hk. apply Hkeys.
      destruct (decide (i = k)) as [->|Hne]; [by rewrite Hfresh in Hk|].
      by rewrite lookup_insert_ne. }
    unfold array_set. rewrite decide_True by lia.
    split; [by rewrite length_insert|].
    intros k Hk. destruct (decide (i = k)) as [->|Hne].
    + rewrite list_lookup_insert_eq by lia. by rewrite lookup_insert_eq.
    + rewrite list_lookup_insert_ne by done.
      rewrite lookup_insert_ne by done. by apply Hlook.
Qed.

Lemma toSparse_keys (vec : list number) k :
  is_Some (toSparse vec !! k) → (k < length vec)%nat.
Proof.
  rewrite toSparse_lookup. destruct (vec !! k) eqn:Hk.
  - intros _. by eapply lookup_lt_Some.
  - by intros [? [=]].
Qed.

(** C6, as the code has it: for a vector no longer than the dimension,
    expanding its sparse encoding and compressing again gives back the
    encoding without the entries whose rounded weight is zero; it gives back
    the very same encoding when no weight other than zero rounds to zero; and
    every index whose weight is not zero is a key of the encoding, with the
    rounded weight as its value. *)
Theorem sparse_round_trip (vec : list number) (dim : nat) :
  (length vec ≤ dim)%nat →
  toSparse (expandSparseVector (toSparse vec) dim)
  = filter (λ kv : nat * number, num_nonzero kv.2 = true) (toSparse vec)
  ∧ (Forall (λ x, num_nonzero x = true → num_nonzero (round4 x) = true) vec →
     toSparse (expandSparseVector (toSparse vec) dim) = toSparse vec)
  ∧ (∀ i x, vec !! i = Some x → num_nonzero x = true →
       toSparse vec !! i = Some (round4 x)).
Proof.
  intros Hdim.
  assert (Hkeys : ∀ k, is_Some (toSparse vec !! k) → (k < dim)%nat).
  { intros k Hk. apply toSparse_keys in Hk. lia. }
  destruct (expandSparseVector_lookup _ _ Hkeys) as [Hlen Hlook].
  assert (Hfirst :
    toSparse (expandSparseVector (toSparse vec) dim)
    = filter (λ kv : nat * number, num_nonzero kv.2 = true) (toSparse vec)).
  { apply map_eq. intros k.
    rewrite map_lookup_filter, (toSparse_lookup (expandSparseVector _ _)).
    destruct (decide (k < dim)%nat) as [Hk|Hk].
    - rewrite (Hlook k Hk), toSparse_lookup.
      destruct (vec !! k) as [x|]; [|done].
      destruct (num_nonzero x); [|done].
      cbn [default mbind option_bind from_option id snd].
      rewrite round4_idempotent.
      destruct (num_nonzero (round4 x)) eqn:Hr.
      + by rewrite option_guard_True.
      + by rewrite option_guard_False.
    - rewrite (lookup_ge_None_2 (expandSparseVector _ _)) by lia.
      rewrite toSparse_lookup, (lookup_ge_None_2 vec); [done|lia]. }
  split_and!; [done| |].
  - intros Hall. rewrite Hfirst. apply map_filter_id. intros k y.
    rewrite toSparse_lookup. destruct (vec !! k) as [x|] eqn:Hx; [|done].
    destruct (num_nonzero x) eqn:Hnz; [|done]. intros [= <-]. simpl.
    rewrite Forall_forall in Hall. apply Hall; [|done].
    by eapply list_elem_of_lookup_2.
  - intros i x Hx Hnz. by rewrite toSparse_lookup, Hx, Hnz.
Qed.

Lemma sparse_round_trip_witness :
  (length [Num (3 # 10); Num 0; Num (1 # 3)] ≤ 4)%nat
  ∧ toSparse (expandSparseVector
                (toSparse [Num (3 # 10); Num 0; Num (1 # 3)]) 4)
    = toSparse [Num (3 # 10); Num 0; Num (1 # 3)].
Proof.
  split; [simpl; lia|].
  apply (sparse_round_trip [Num (3 # 10); Num 0; Num (1 # 3)] 4).
  - simpl; lia.
  - repeat (constructor; [vm_compute; intros Hnz; exact Hnz|]).
    constructor.
Defined.

(** A weight of 0.00001 is not zero, so the encoding keeps its index, with
    the rounded weight 0; the expanded vector holds 0 there, and compressing
    it again drops the index. *)
Lemma tiny_weight_dropped :
  length tiny_vector = cfg_hashDim DEFAULT_CONFIG
  ∧ toSparse tiny_vector !! 0%nat = Some (Num (0 # 10000))
  ∧ toSparse (expandSparseVector (toSparse tiny_vector)
                (cfg_hashDim DEFAULT_CONFIG)) !! 0%nat = None
  ∧ toSparse (expandSparseVector (toSparse tiny_vector)
                (cfg_hashDim DEFAULT_CONFIG))
    ≠ toSparse tiny_vector.
Proof.
  assert (Hkept : toSparse tiny_vector !! 0%nat = Some (Num (0 # 10000)))
    by (vm_compute; reflexivity).
  assert (Hgone :
    toSparse (expandSparseVector (toSparse tiny_vector)
                (cfg_hashDim DEFAULT_CONFIG)) !! 0%nat = None)
    by (vm_compute; reflexivity).
  split_and!; [vm_compute; reflexivity|exact Hkept|exact Hgone|].
  intros Heq.
  pose proof (eq_trans (eq_sym Hgone) (f_equal (lookup 0%nat) Heq)) as Hboth.
  pose proof (eq_trans Hboth Hkept) as Hno. discriminate Hno.
Qed.

(** ** Loading the index *)

Lemma log_lines_app l1 l2 st :
  log_lines l2 (log_lines l1 st) = log_lines (l1 ++ l2) st.
Proof. unfold log_lines. simpl. by rewrite app_assoc. Qed.

Lemma json_get_field j key :
  j ≠ JNull → json_get j key = Return (json_field j key).
Proof. by destruct j. Qed.

Section loading.
Context `{NodePath, Builtins}.

(** C4, as the code has it: [loadIndex] ends the process with status 1,
    after telling on the error stream where the index was looked for and
    how to build one, when the index file is absent (the read fails with
    [ENOENT]); it throws any other read error, a [SyntaxError] for a text
    that is not JSON, a [TypeError] for the text [null], and the error
    [Invalid index format] when the parsed value lacks a truthy [version],
    [vectors] or [metadata]; in every other case it returns the parsed
    value: neither the lengths of [metadata] and [vectors] nor [docCount]
    are looked at. *)
Theorem loadIndex_checks_three_fields indexDir st :
  let indexFile :=
    getIndexFile (or_else indexDir (getDefaultIndexDir (cwd st))) in
  (fs st !! indexFile = None →
     loadIndex indexDir st
     = (Exit 1, log_lines (index_not_found_lines indexFile) st))
  ∧ (∀ e, read_result (fs st) indexFile = inr e →
       loadIndex indexDir st
       = if bool_decide (error_code e = Some "ENOENT")
         then (Exit 1, log_lines (index_not_found_lines indexFile) st)
         else (Throw e, st))
  ∧ (∀ data, read_result (fs st) indexFile = inl data →
       JSON_parse data = None →
       loadIndex indexDir st = (Throw json_syntax_error, st))
  ∧ (∀ data, read_result (fs st) indexFile = inl data →
       JSON_parse data = Some JNull →
       ∃ e, error_code e = None ∧ loadIndex indexDir st = (Throw e, st))
  ∧ (∀ data j, read_result (fs st) indexFile = inl data →
       JSON_parse data = Some j → j ≠ JNull →
       loadIndex indexDir st
       = if truthy (json_field j "version")
            && truthy (json_field j "vectors")
            && truthy (json_field j "metadata")
         then (Return (j, indexFile), st)
         else (Throw invalid_index_format, st)).
Proof.
  intros indexFile.
  assert (Herr : ∀ e, read_result (fs st) indexFile = inr e →
    loadIndex indexDir st
    = if bool_decide (error_code e = Some "ENOENT")
      then (Exit 1, log_lines (index_not_found_lines indexFile) st)
      else (Throw e, st)).
  { intros e He. unfold loadIndex. run. fold indexFile. rewrite He. run.
    destruct (bool_decide _); [|done]. unfold console_error. run.
    by rewrite !log_lines_app. }
  split_and!; [|done| | |].
  - intros Hnone. rewrite (Herr (enoent indexFile)); [done|].
    unfold read_result. by rewrite Hnone.
  - intros data Hdata Hparse. unfold loadIndex. run. fold indexFile.
    rewrite Hdata. run. rewrite Hparse. run. done.
  - intros data Hdata Hparse. eexists. split; [|unfold loadIndex; run].
    2: { fold indexFile. rewrite Hdata. run. rewrite Hparse. run.
         reflexivity. }
    reflexivity.
  - intros data j Hdata Hparse Hj. unfold loadIndex. run. fold indexFile.
    rewrite Hdata. run. rewrite Hparse. run.
    rewrite !(json_get_field j) by done. run.
    destruct (truthy (json_field j "version")); run; [|done].
    destruct (truthy (json_field j "vectors")); run; [|done].
    destruct (truthy (json_field j "metadata")); run; done.
Qed.
End loading.

Lemma loadIndex_checks_three_fields_witness :
  fs (workspace ∅) !! "/w/.similar-files/index.json" = None
  ∧ loadIndex None (workspace ∅)
    = (Exit 1,
       log_lines (index_not_found_lines "/w/.similar-files/index.json")
                 (workspace ∅)).
Proof.
  split; [reflexivity|].
  exact (proj1 (loadIndex_checks_three_fields None (workspace ∅)) eq_refl).
Defined.

(** An index file whose [vectors] has two elements and whose [metadata] has
    one, under a [docCount] of one, is not structurally valid, and is
    loaded. *)
Lemma lopsided_index_loads :
  json_array_length (json_field lopsided_json "metadata") = Some 1%nat
  ∧ json_array_length (json_field lopsided_json "vectors") = Some 2%nat
  ∧ structurally_valid lopsided_json = false
  ∧ loadIndex None (workspace lopsided_disk)
    = (Return (lopsided_json, "/w/.similar-files/index.json"),
       workspace lopsided_disk).
Proof. split_and!; vm_compute; reflexivity. Qed.

(** ** The traversal *)

(** Induction on a directory tree: the directories below come first. *)
Lemma listing_ind' (P : listing → Prop) :
  (∀ e, P (Unreadable e)) →
  (∀ entries,
     Forall (λ entry, match entry with
                      | DirEnt _ sub => P sub
                      | _ => True
                      end) entries →
     P (Entries entries)) →
  ∀ here, P here.
Proof.
  intros Hunreadable Hentries. fix IH 1. intros [e|entries].
  - apply Hunreadable.
  - apply Hentries. induction entries as [|entry rest IHrest]; constructor.
    + destruct entry as [name|name sub|name]; [exact I|apply IH|exact I].
    + exact IHrest.
Qed.

Section traversal.
Context `{NodePath, Builtins}.
Variable options : BuildOptions.

Let excludedSet : gset string := list_to_set (excludedDirs_of options).
Let allowedSet : gset string := list_to_set (allowedExtensions_of options).
Let recur (d : string) (sub : listing) (fs : list string) :=
  collectFiles d sub options fs.

Lemma collectFiles_Entries dir entries files :
  collectFiles dir (Entries entries) options files
  = collectEntries recur dir excludedSet allowedSet entries files.
Proof. reflexivity. Qed.

Lemma collectEntries_cons rec dir entry rest files :
  collectEntries rec dir excludedSet allowedSet (entry :: rest) files
  = match entry with
    | DirEnt name sub =>
        if negb (bool_decide (name ∈ excludedSet)) && negb (startsWith_dot name)
        then files' ← rec (join dir name) sub files;
             collectEntries rec dir excludedSet allowedSet rest files'
        else collectEntries rec dir excludedSet allowedSet rest files
    | FileEnt name =>
        if bool_decide (toLowerCase (extname name) ∈ allowedSet)
        then collectEntries rec dir excludedSet allowedSet rest
               (files ++ [join dir name])
        else collectEntries rec dir excludedSet allowedSet rest files
    | OtherEnt _ => collectEntries rec dir excludedSet allowedSet rest files
    end.
Proof. by destruct entry. Qed.

Lemma descends_iff name :
  negb (bool_decide (name ∈ excludedSet)) && negb (startsWith_dot name) = true
  ↔ (name ∉ excludedDirs_of options) ∧ startsWith_dot name = false.
Proof.
  rewrite andb_true_iff, !negb_true_iff, bool_decide_eq_false.
  unfold excludedSet. by rewrite elem_of_list_to_set.
Qed.

Lemma allowed_iff ext :
  bool_decide (ext ∈ allowedSet) = true ↔ ext ∈ allowedExtensions_of options.
Proof.
  rewrite bool_decide_eq_true. unfold allowedSet.
  by rewrite elem_of_list_to_set.
Qed.

Lemma collectable_Entries dir entries p :
  collectable options dir (Entries entries) p
  ↔ ∃ entry, entry ∈ entries ∧ collectable_via options dir entry p.
Proof.
  split.
  - inversion 1; subst.
    + eexists. split; [eassumption|]. by split.
    + eexists. split; [eassumption|]. by split_and!.
  - intros ([name|name sub|name] & Hin & Hvia); simpl in Hvia.
    + destruct Hvia as [Hext ->]. by apply collectable_file.
    + destruct Hvia as (Hex & Hdot & Hsub). by eapply collectable_below.
    + done.
Qed.

(** The traversal returns, with the files it was given followed by exactly
    the collectable paths. *)
Lemma collectFiles_spec here :
  ∀ dir files,
    ∃ more, collectFiles dir here options files = Return (files ++ more)
            ∧ ∀ p, p ∈ more ↔ collectable options dir here p.
Proof.
  induction here as [e|entries IH] using listing_ind'; intros dir files.
  - exists []. split; [by rewrite app_nil_r|].
    intros p. split; [by intros ?%elem_of_nil|inversion 1].
  - rewrite collectFiles_Entries.
    assert (Hloop : ∃ more,
      collectEntries recur dir excludedSet allowedSet entries files
      = Return (files ++ more)
      ∧ ∀ p, p ∈ more
             ↔ ∃ entry, entry ∈ entries ∧ collectable_via options dir entry p).
    { clear -IH. revert files.
      induction IH as [|entry rest Hentry _ IHrest]; intros files.
      - exists []. split; [by rewrite app_nil_r|].
        intros p. split; [by intros ?%elem_of_nil|].
        by intros (? & ?%elem_of_nil & _).
      - rewrite collectEntries_cons.
        destruct entry as [name|name sub|name].
        + destruct (bool_decide _) eqn:Hext.
          * destruct (IHrest (files ++ [join dir name])) as (more & -> & Hmore).
            exists (join dir name :: more). split; [by rewrite <- app_assoc|].
            intros p. rewrite elem_of_cons, Hmore. split.
            -- intros [->|(entry & Hin & Hvia)].
               ++ exists (FileEnt name). split; [left|].
                  split; [by apply allowed_iff|done].
               ++ exists entry. split; [by right|done].
            -- intros (entry & Hin & Hvia).
               apply elem_of_cons in Hin as [->|Hin]; [|right; eauto].
               left. by destruct Hvia.
          * destruct (IHrest files) as (more & -> & Hmore).
            exists more. split; [done|]. intros p. rewrite Hmore. split.
            -- intros (entry & Hin & Hvia). exists entry. split; [by right|done].
            -- intros (entry & Hin & Hvia).
               apply elem_of_cons in Hin as [->|Hin]; [|eauto].
               destruct Hvia as [Hallowed _]. apply allowed_iff in Hallowed.
               congruence.
        + destruct (negb _ && negb _) eqn:Hdesc.
          * change (recur (join dir name) sub files)
              with (collectFiles (join dir name) sub options files).
            destruct (Hentry (join dir name) files) as (below & -> & Hbelow).
            cbn [mbind outcome_bind].
            destruct (IHrest (files ++ below)) as (more & -> & Hmore).
            exists (below ++ more). split; [by rewrite <- app_assoc|].
            intros p. rewrite elem_of_app, Hbelow, Hmore. split.
            -- intros [Hsub|(entry & Hin & Hvia)].
               ++ exists (DirEnt name sub). split; [left|].
                  apply descends_iff in Hdesc as [? ?]. by split_and!.
               ++ exists entry. split; [by right|done].
            -- intros (entry & Hin & Hvia).
               apply elem_of_cons in Hin as [->|Hin]; [|right; eauto].
               left. by destruct Hvia as (_ & _ & ?).
          * destruct (IHrest files) as (more & -> & Hmore).
            exists more. split; [done|]. intros p. rewrite Hmore. split.
            -- intros (entry & Hin & Hvia). exists entry. split; [by right|done].
            -- intros (entry & Hin & Hvia).
               apply elem_of_cons in Hin as [->|Hin]; [|eauto].
               destruct Hvia as (Hex & Hdot & _).
               assert (Hyes : negb (bool_decide (name ∈ excludedSet))
                              && negb (startsWith_dot name) = true)
                 by by apply descends_iff.
               congruence.
        + destruct (IHrest files) as (more & -> & Hmore).
          exists more. split; [done|]. intros p. rewrite Hmore. split.
          * intros (entry & Hin & Hvia). exists entry. split; [by right|done].
          * intros (entry & Hin & Hvia).
            apply elem_of_cons in Hin as [->|Hin]; [done|eauto]. }
    destruct Hloop as (more & -> & Hmore). exists more. split; [done|].
    intros p. by rewrite Hmore, collectable_Entries.
Qed.

(** An entry for a directory that is hidden or excluded has no part in the
    loop, whatever lies below it. *)
Lemma collectEntries_skip rec dir pre name sub post files :
  startsWith_dot name = true ∨ name ∈ excludedDirs_of options →
  collectEntries rec dir excludedSet allowedSet
    (pre ++ DirEnt name sub :: post) files
  = collectEntries rec dir excludedSet allowedSet (pre ++ post) files.
Proof.
  intros Hskip. revert files.
  induction pre as [|entry pre IH]; intros files; cbn [app].
  - rewrite collectEntries_cons.
    destruct (negb _ && negb _) eqn:Hdesc; [|done].
    apply descends_iff in Hdesc as [Hex Hdot].
    destruct Hskip; [congruence|done].
  - rewrite !collectEntries_cons.
    destruct entry as [n|n below|n]; [| |apply IH].
    + destruct (bool_decide _); apply IH.
    + destruct (negb _ && negb _); [|apply IH].
      destruct (rec _ _ _); cbn [mbind outcome_bind]; [apply IH|done..].
Qed.

(** Unreadable directories count as empty ones. *)
Lemma collectFiles_as_empty here :
  ∀ dir files,
    collectFiles dir here options files
    = collectFiles dir (as_empty here) options files.
Proof.
  induction here as [e|entries IH] using listing_ind'; intros dir files.
  - reflexivity.
  - cbn [as_empty]. rewrite !collectFiles_Entries. revert files.
    induction IH as [|entry rest Hentry _ IHrest]; intros files; [done|].
    cbn [map]. rewrite !collectEntries_cons.
    destruct entry as [name|name sub|name]; [| |apply IHrest].
    + destruct (bool_decide _); apply IHrest.
    + destruct (negb _ && negb _); [|apply IHrest].
      change (recur (join dir name) (as_empty sub) files)
        with (collectFiles (join dir name) (as_empty sub) options files).
      rewrite <- Hentry.
      change (recur (join dir name) sub files)
        with (collectFiles (join dir name) sub options files).
      destruct (collectFiles _ sub _ _); cbn [mbind outcome_bind];
        [apply IHrest|done..].
Qed.
End traversal.

(** C9: when [collectFiles] returns, the paths it added are exactly those of
    the regular files whose lower-cased extension is in the allowed set and
    that are reached through directories whose name neither starts with a dot
    nor is in the excluded set; an entry for a hidden or excluded directory
    can hold anything, or be missing, without changing the result.  The
    default index directory of a workspace is its entry [.similar-files], a
    hidden name: what was written there is never collected. *)
Theorem collectFiles_skips_hidden_and_excluded `{NodePath, Builtins}
    options dir here files out :
  collectFiles dir here options files = Return out →
  (∀ p, p ∈ out ↔ p ∈ files ∨ collectable options dir here p)
  ∧ (∀ pre name sub sub' post,
       here = Entries (pre ++ DirEnt name sub :: post) →
       startsWith_dot name = true ∨ name ∈ excludedDirs_of options →
       collectFiles dir (Entries (pre ++ DirEnt name sub' :: post))
                    options files = Return out
       ∧ collectFiles dir (Entries (pre ++ post)) options files = Return out)
  ∧ (getDefaultIndexDir dir = join dir ".similar-files"
     ∧ ∀ pre sub sub' post,
         here = Entries (pre ++ DirEnt ".similar-files" sub :: post) →
         collectFiles dir (Entries (pre ++ DirEnt ".similar-files" sub' :: post))
                      options files = Return out).
Proof.
  intros Hout.
  assert (Hskip : ∀ pre name sub sub' post,
    here = Entries (pre ++ DirEnt name sub :: post) →
    startsWith_dot name = true ∨ name ∈ excludedDirs_of options →
    collectFiles dir (Entries (pre ++ DirEnt name sub' :: post))
                 options files = Return out
    ∧ collectFiles dir (Entries (pre ++ post)) options files = Return out).
  { intros pre name sub sub' post -> Hname.
    rewrite collectFiles_Entries, collectEntries_skip in Hout by done.
    by rewrite !collectFiles_Entries, collectEntries_skip. }
  split_and!; [|done|done|].
  - destruct (collectFiles_spec options here dir files) as (more & Hrun & Hmore).
    rewrite Hrun in Hout. injection Hout as <-.
    intros p. by rewrite elem_of_app, Hmore.
  - intros pre sub sub' post Hhere.
    by apply (Hskip pre ".similar-files" sub sub' post Hhere); left.
Qed.

Lemma collectFiles_skips_hidden_and_excluded_witness :
  collectFiles "/w" small_tree default_build []
  = Return ["/w/a.md"; "/w/src/m.JS"; "/w/src/z.py"]
  ∧ ∀ p, p ∈ ["/w/a.md"; "/w/src/m.JS"; "/w/src/z.py"]
         ↔ p ∈ [] ∨ collectable default_build "/w" small_tree p.
Proof.
  split; [vm_compute; reflexivity|].
  apply (collectFiles_skips_hidden_and_excluded default_build "/w" small_tree
           [] ["/w/a.md"; "/w/src/m.JS"; "/w/src/z.py"]).
  vm_compute; reflexivity.
Defined.

(** C10: [collectFiles] called on a directory whose entries cannot be read
    returns the array it was given; called on any tree it returns, with the
    files it was given followed by those it found, and never throws; and its
    result is the one it has on the tree in which every unreadable directory
    is an empty one. *)
Theorem collectFiles_recovers_from_unreadable `{NodePath, Builtins}
    options dir here files e :
  collectFiles dir (Unreadable e) options files = Return files
  ∧ (∃ more, collectFiles dir here options files = Return (files ++ more))
  ∧ collectFiles dir here options files
    = collectFiles dir (as_empty here) options files.
Proof.
  split_and!; [done| |apply collectFiles_as_empty].
  destruct (collectFiles_spec options here dir files) as (more & Hrun & _).
  eauto.
Qed.

(** ** The build *)

Lemma log_lines_nil st : log_lines [] st = st.
Proof. destruct st. unfold log_lines. simpl. by rewrite app_nil_r. Qed.

Section build.
Context `{NodePath, Quarrel, Builtins, TextTools}.
Variables (s : script) (root : string).

(** The loop over the files returns, whatever can be read of them: the
    documents and metadata of the files that come through are pushed in
    order, one warning goes to the error stream for each of the others, and
    nothing else changes. *)
Lemma readDocuments_spec files docs metadata st :
  readDocuments s root files docs metadata st
  = (Return (docs ++ (fst <$> described s root (fs st) files),
             metadata ++ (snd <$> described s root (fs st) files)),
     log_lines (skip_warnings s root (fs st) files) st).
Proof.
  revert docs metadata st.
  induction files as [|filePath rest IH]; intros docs metadata st.
  - cbn [readDocuments described skip_warnings omap list_omap fmap list_fmap].
    run. by rewrite !app_nil_r, log_lines_nil.
  - cbn [readDocuments described skip_warnings omap list_omap].
    unfold file_result. run.
    destruct (read_result (fs st) filePath) as [content|err] eqn:Hread; run.
    + destruct (describe_error s content) as [err|]; run.
      * unfold console_error. run. rewrite IH. cbn [log_lines fs].
        by rewrite log_lines_app.
      * rewrite IH. cbn [fmap list_fmap fst snd].
        by rewrite <- !app_assoc.
    + unfold console_error. run. rewrite IH. cbn [log_lines fs].
      by rewrite log_lines_app.
Qed.

(** The documents of the corpus come from the files that were read and on
    whose text the helpers returned; the warnings from the others. *)
Lemma elem_of_described disk files dm :
  dm ∈ described s root disk files
  ↔ ∃ filePath content,
      filePath ∈ files
      ∧ read_result disk filePath = inl content
      ∧ describe_error s content = None
      ∧ dm = describe s root filePath content.
Proof.
  unfold described. rewrite list_elem_of_omap. unfold file_result. split.
  - intros (filePath & Hin & Hdm).
    destruct (read_result disk filePath) as [content|] eqn:Hread; [|done].
    destruct (describe_error s content) eqn:Herr; [done|].
    injection Hdm as <-. by exists filePath, content.
  - intros (filePath & content & Hin & Hread & Herr & ->).
    exists filePath. by rewrite Hread, Herr.
Qed.

Lemma elem_of_skip_warnings disk files line :
  line ∈ skip_warnings s root disk files
  ↔ ∃ filePath err,
      filePath ∈ files
      ∧ file_result s root disk filePath = inr err
      ∧ line = "Skipping " +:+ filePath +:+ ": " +:+ error_message err.
Proof.
  unfold skip_warnings. rewrite list_elem_of_omap. split.
  - intros (filePath & Hin & Hline).
    destruct (file_result s root disk filePath) as [|err] eqn:Hres; [done|].
    injection Hline as <-. by exists filePath, err.
  - intros (filePath & err & Hin & Hres & ->).
    exists filePath. by rewrite Hres.
Qed.

Lemma described_and_skipped disk files :
  (length (described s root disk files)
   + length (skip_warnings s root disk files)
   = length files)%nat.
Proof.
  unfold described, skip_warnings.
  induction files as [|f rest IH]; [done|].
  cbn [omap list_omap]. destruct (file_result s root disk f); simpl in *; lia.
Qed.

Lemma describe_ids filePath content :
  doc_id (describe s root filePath content).1
  = meta_id (describe s root filePath content).2
  ∧ meta_path (describe s root filePath content).2
    = meta_id (describe s root filePath content).2.
Proof. unfold describe. by destruct s. Qed.

Lemma described_ids disk files dm :
  dm ∈ described s root disk files →
  doc_id dm.1 = meta_id dm.2 ∧ meta_path dm.2 = meta_id dm.2.
Proof.
  rewrite elem_of_described. intros (filePath & content & _ & _ & _ & ->).
  apply describe_ids.
Qed.
End build.

Section build_index.
Context `{NodePath, Quarrel, Builtins, TextTools}.
Variables (s : script) (options : BuildOptions) (tree : listing).

(** Every way a build can end. *)
Lemma buildIndex_run st :
  ∃ files,
    collectFiles (build_root options (cwd st)) tree options [] = Return files
    ∧ buildIndex s options tree st =
      match files with
      | [] => (Exit 0, st)
      | _ =>
          let st1 :=
            log_lines (skip_warnings s (build_root options (cwd st)) (fs st)
                         files) st in
          match fs st !! build_indexDir options (cwd st) with
          | Some (Content _) =>
              (Throw (SystemError "EEXIST"
                        ("EEXIST: file already exists, mkdir '"
                         +:+ build_indexDir options (cwd st) +:+ "'")), st1)
          | Some (Failing code message) =>
              (Throw (SystemError code message), st1)
          | None =>
              match fs st !! build_indexFile options (cwd st) with
              | Some (Failing code message) =>
                  (Throw (SystemError code message),
                   record_call (Mkdir (build_indexDir options (cwd st)))
                               (fs st) st1)
              | _ => (Return tt, built_state s options files st)
              end
          end
      end.
Proof.
  destruct (collectFiles_spec options tree (build_root options (cwd st)) [])
    as (files & Hfiles & _).
  exists files. split; [done|].
  unfold buildIndex. run. rewrite Hfiles. cbn [app].
  destruct files as [|f rest]; [done|].
  rewrite readDocuments_spec. cbn [app]. unfold mkdir, writeFile. run.
  cbn [log_lines fs record_call].
  destruct (fs st !! build_indexDir options (cwd st)) as [[?|? ?]|]; [done..|].
  run. cbn [fs now cwd record_call log_lines fst snd].
  unfold built_state, built_index.
  destruct (fs st !! build_indexFile options (cwd st)) as [[?|? ?]|]; done.
Qed.
End build_index.

Section build_claims.
Context `{NodePath, Quarrel, Builtins, TextTools}.
Variables (s : script) (options : BuildOptions) (tree : listing).

Lemma buildIndex_Return st st' :
  buildIndex s options tree st = (Return tt, st') →
  ∃ files,
    collectFiles (build_root options (cwd st)) tree options [] = Return files
    ∧ files ≠ []
    ∧ st' = built_state s options files st.
Proof.
  destruct (buildIndex_run s options tree st) as (files & Hfiles & ->).
  intros Hrun. exists files. split; [done|].
  destruct files as [|f rest]; [done|]. split; [done|].
  destruct (fs st !! build_indexDir options (cwd st)) as [[?|? ?]|];
    [done..|].
  destruct (fs st !! build_indexFile options (cwd st)) as [[?|? ?]|];
    by inversion Hrun.
Qed.

(** C5, as the code has it: a build that returns has persisted the full
    index, the one of the documents of all the collected files that were
    read and described, with every field as [buildIndex] sets it.  It has
    made two calls that change the file system, [mkdir] of the index
    directory and one [writeFile] of the serialized index onto the index
    file itself, after which the file holds that text and nothing of what it
    held before, and no other file is changed; the index file is written in
    place, not through another path that is then renamed. *)
Theorem buildIndex_overwrites_index_file st st' :
  buildIndex s options tree st = (Return tt, st') →
  ∃ files index,
    collectFiles (build_root options (cwd st)) tree options [] = Return files
    ∧ calls st'
      = calls st ++ [Mkdir (build_indexDir options (cwd st));
                     WriteFile (build_indexFile options (cwd st))
                               (JSON_stringify index)]
    ∧ fs st'
      = <[build_indexFile options (cwd st)
          := Content (JSON_stringify index)]> (fs st)
    ∧ written_in_place (build_indexFile options (cwd st)) (calls st')
    ∧ version index = script_version s
    ∧ created index = now st
    ∧ root index = Some (build_root options (cwd st))
    ∧ hashDim index = cfg_hashDim DEFAULT_CONFIG
    ∧ docCount index
      = length (described s (build_root options (cwd st)) (fs st) files)
    ∧ metadata index
      = (snd <$> described s (build_root options (cwd st)) (fs st) files)
    ∧ vectors index
      = (toSparse
         <$> vectorizeDocuments
               (fst <$> described s (build_root options (cwd st)) (fs st)
                          files)
               build_vectorize_options).
Proof.
  intros Hrun. apply buildIndex_Return in Hrun as (files & Hfiles & _ & ->).
  exists files, (built_index s options files st).
  unfold built_state, built_index.
  cbn [record_call log_lines calls fs index_object version created root
       hashDim docCount metadata vectors].
  rewrite <- app_assoc, length_fmap. split_and!; try done.
  eexists. apply elem_of_app. right.
  apply list_elem_of_further, list_elem_of_here.
Qed.

(** C7: when the vectorizer returns one vector for each document, the index
    a build writes has as many metadata records and as many vectors as its
    [docCount] says, and the record and the vector at one position belong to
    the same document: the record carries the identifier of the document at
    that position, and the vector is the sparse form of the vector the
    vectorizer returned at that position. *)
Theorem buildIndex_index_aligned st st' :
  (∀ docs o, length (vectorizeDocuments docs o) = length docs) →
  buildIndex s options tree st = (Return tt, st') →
  ∃ index docs,
    fs st' !! build_indexFile options (cwd st)
    = Some (Content (JSON_stringify index))
    ∧ last (calls st')
      = Some (WriteFile (build_indexFile options (cwd st))
                        (JSON_stringify index))
    ∧ length (metadata index) = docCount index
    ∧ length (vectors index) = docCount index
    ∧ docCount index = length docs
    ∧ ∀ i m, metadata index !! i = Some m →
        ∃ d vec,
          docs !! i = Some d ∧ doc_id d = meta_id m
          ∧ vectorizeDocuments docs build_vectorize_options !! i = Some vec
          ∧ vectors index !! i = Some (toSparse vec).
Proof.
  intros Hvec Hrun. apply buildIndex_Return in Hrun as (files & _ & _ & ->).
  set (dm := described s (build_root options (cwd st)) (fs st) files).
  exists (built_index s options files st), (fst <$> dm).
  unfold built_state, built_index. fold dm.
  cbn [record_call log_lines calls fs index_object metadata vectors docCount].
  split_and!.
  - by rewrite lookup_insert_eq.
  - by rewrite last_snoc.
  - by rewrite !length_fmap.
  - by rewrite length_fmap, Hvec.
  - done.
  - intros i m Hm. apply list_lookup_fmap_Some in Hm as ([d m'] & -> & Hdm).
    assert (Hi : (i < length (vectorizeDocuments (fst <$> dm)
                                build_vectorize_options))%nat).
    { rewrite Hvec, length_fmap. by eapply lookup_lt_Some. }
    apply lookup_lt_is_Some_2 in Hi as [vec Hvec_i].
    exists d, vec. split_and!.
    + by rewrite list_lookup_fmap, Hdm.
    + by apply (described_ids s (build_root options (cwd st)) (fs st) files
                  (d, m')), list_elem_of_lookup_2 with i.
    + done.
    + by rewrite list_lookup_fmap, Hvec_i.
Qed.

(** C8: in a build, a file that cannot be read is left out of the corpus
    with one warning on the error stream, and the loop goes on with the next
    file; the same [catch] does this for a file that was read and on whose
    text a helper throws.  The loop over the files always returns, with the
    documents of the files that came through, in order; every document of the
    corpus comes from a file that was read, and every file that cannot be
    read has its warning.  A build whose index directory and index file can
    be written therefore ends normally whichever files can be read: it
    returns after writing the index of the files that came through, or exits
    with status 0 when no file was collected. *)
Theorem buildIndex_skips_unreadable_files st :
  fs st !! build_indexDir options (cwd st) = None →
  (∀ code message,
     fs st !! build_indexFile options (cwd st) ≠ Some (Failing code message)) →
  ∃ files st',
    collectFiles (build_root options (cwd st)) tree options [] = Return files
    ∧ (∀ docs metadata st0,
         readDocuments s (build_root options (cwd st)) files docs metadata st0
         = (Return
              (docs ++ (fst <$> described s (build_root options (cwd st))
                                          (fs st0) files),
               metadata ++ (snd <$> described s (build_root options (cwd st))
                                              (fs st0) files)),
            log_lines (skip_warnings s (build_root options (cwd st))
                         (fs st0) files) st0))
    ∧ (buildIndex s options tree st = (Return tt, st')
       ∨ files = [] ∧ buildIndex s options tree st = (Exit 0, st'))
    ∧ stderr st'
      = stderr st ++ skip_warnings s (build_root options (cwd st)) (fs st) files
    ∧ (∀ filePath err,
         filePath ∈ files → read_result (fs st) filePath = inr err →
         ("Skipping " +:+ filePath +:+ ": " +:+ error_message err)
         ∈ skip_warnings s (build_root options (cwd st)) (fs st) files)
    ∧ (∀ dm,
         dm ∈ described s (build_root options (cwd st)) (fs st) files →
         ∃ filePath content,
           filePath ∈ files
           ∧ read_result (fs st) filePath = inl content
           ∧ dm = describe s (build_root options (cwd st)) filePath content)
    ∧ (length (described s (build_root options (cwd st)) (fs st) files)
       + length (skip_warnings s (build_root options (cwd st)) (fs st) files)
       = length files)%nat
    ∧ (files ≠ [] →
       fs st' !! build_indexFile options (cwd st)
       = Some (Content (JSON_stringify (built_index s options files st)))
       ∧ metadata (built_index s options files st)
         = (snd <$> described s (build_root options (cwd st)) (fs st) files)).
Proof.
  intros Hdir Hfile.
  destruct (buildIndex_run s options tree st) as (files & Hfiles & Hrun).
  exists files.
  assert (Hwarned : ∀ filePath err,
    filePath ∈ files → read_result (fs st) filePath = inr err →
    ("Skipping " +:+ filePath +:+ ": " +:+ error_message err)
    ∈ skip_warnings s (build_root options (cwd st)) (fs st) files).
  { intros filePath err Hin Hread. apply elem_of_skip_warnings.
    exists filePath, err. unfold file_result. by rewrite Hread. }
  assert (Hcorpus : ∀ dm,
    dm ∈ described s (build_root options (cwd st)) (fs st) files →
    ∃ filePath content,
      filePath ∈ files
      ∧ read_result (fs st) filePath = inl content
      ∧ dm = describe s (build_root options (cwd st)) filePath content).
  { intros dm (filePath & content & Hin & Hread & _ & ->)%elem_of_described.
    by exists filePath, content. }
  pose proof (described_and_skipped s (build_root options (cwd st)) (fs st)
                files) as Hsum.
  destruct files as [|f rest].
  - exists st. split_and!; [done| |by right| |done..].
    + intros. apply readDocuments_spec.
    + cbn [skip_warnings omap list_omap]. by rewrite app_nil_r.
  - exists (built_state s options (f :: rest) st).
    rewrite Hdir in Hrun.
    assert (Hrun' : buildIndex s options tree st
                    = (Return tt, built_state s options (f :: rest) st)).
    { rewrite Hrun.
      destruct (fs st !! build_indexFile options (cwd st)) as [[?|c m]|] eqn:E;
        [done| |done].
      by destruct (Hfile c m). }
    split_and!; [done| |by left|done..|].
    + intros. apply readDocuments_spec.
    + intros _. unfold built_state. cbn [record_call fs].
      by rewrite lookup_insert_eq.
Qed.
End build_claims.

Lemma buildIndex_overwrites_index_file_witness :
  buildIndex Current default_build small_tree (workspace small_disk)
  = (Return tt, small_built)
  ∧ ∃ files index,
      collectFiles (build_root default_build (cwd (workspace small_disk)))
                   small_tree default_build [] = Return files
      ∧ calls small_built
        = calls (workspace small_disk)
          ++ [Mkdir (build_indexDir default_build
                       (cwd (workspace small_disk)));
              WriteFile (build_indexFile default_build
                           (cwd (workspace small_disk)))
                        (JSON_stringify index)]
      ∧ fs small_built
        = <[build_indexFile default_build (cwd (workspace small_disk))
            := Content (JSON_stringify index)]> (fs (workspace small_disk))
      ∧ written_in_place
          (build_indexFile default_build (cwd (workspace small_disk)))
          (calls small_built)
      ∧ version index = script_version Current
      ∧ created index = now (workspace small_disk)
      ∧ root index
        = Some (build_root default_build (cwd (workspace small_disk)))
      ∧ hashDim index = cfg_hashDim DEFAULT_CONFIG
      ∧ docCount index
        = length (described Current
                    (build_root default_build (cwd (workspace small_disk)))
                    (fs (workspace small_disk)) files)
      ∧ metadata index
        = (snd <$> described Current
                     (build_root default_build (cwd (workspace small_disk)))
                     (fs (workspace small_disk)) files)
      ∧ vectors index
        = (toSparse
           <$> vectorizeDocuments
                 (fst <$> described Current
                            (build_root default_build
                               (cwd (workspace small_disk)))
                            (fs (workspace small_disk)) files)
                 build_vectorize_options).
Proof.
  split; [vm_compute; reflexivity|].
  apply (buildIndex_overwrites_index_file Current default_build small_tree
           (workspace small_disk) small_built).
  vm_compute; reflexivity.
Defined.

(** The build of a small workspace makes two calls, [mkdir] of the index
    directory and [writeFile] onto the index file: the index file is written
    in place. *)
Lemma index_written_in_place :
  buildIndex Current default_build small_tree (workspace small_disk)
  = (Return tt, small_built)
  ∧ calls small_built
    = [Mkdir "/w/.similar-files";
       WriteFile "/w/.similar-files/index.json"
                 "index docCount=2 metadata=2 vectors=2"]
  ∧ written_in_place "/w/.similar-files/index.json" (calls small_built).
Proof.
  assert (Hcalls : calls small_built
    = [Mkdir "/w/.similar-files";
       WriteFile "/w/.similar-files/index.json"
                 "index docCount=2 metadata=2 vectors=2"])
    by (vm_compute; reflexivity).
  split_and!; [vm_compute; reflexivity|exact Hcalls|].
  exists "index docCount=2 metadata=2 vectors=2". rewrite Hcalls.
  apply list_elem_of_further, list_elem_of_here.
Qed.

Lemma buildIndex_index_aligned_witness :
  (∀ docs o, length (vectorizeDocuments docs o) = length docs)
  ∧ buildIndex Current default_build small_tree (workspace small_disk)
    = (Return tt, small_built)
  ∧ ∃ index docs,
      fs small_built
      !! build_indexFile default_build (cwd (workspace small_disk))
      = Some (Content (JSON_stringify index))
      ∧ last (calls small_built)
        = Some (WriteFile (build_indexFile default_build
                             (cwd (workspace small_disk)))
                          (JSON_stringify index))
      ∧ length (metadata index) = docCount index
      ∧ length (vectors index) = docCount index
      ∧ docCount index = length docs
      ∧ ∀ i m, metadata index !! i = Some m →
          ∃ d vec,
            docs !! i = Some d ∧ doc_id d = meta_id m
            ∧ vectorizeDocuments docs build_vectorize_options !! i = Some vec
            ∧ vectors index !! i = Some (toSparse vec).
Proof.
  assert (Hvec : ∀ docs o, length (vectorizeDocuments docs o) = length docs).
  { intros docs o. apply length_fmap. }
  split_and!; [exact Hvec|vm_compute; reflexivity|].
  apply (buildIndex_index_aligned Current default_build small_tree
           (workspace small_disk) small_built Hvec).
  vm_compute; reflexivity.
Defined.

Lemma buildIndex_skips_unreadable_files_witness :
  fs (workspace mixed_disk)
  !! build_indexDir default_build (cwd (workspace mixed_disk)) = None
  ∧ read_result mixed_disk "/w/locked.md"
    = inr (SystemError "EACCES" "EACCES: permission denied")
  ∧ buildIndex Current default_build mixed_tree (workspace mixed_disk)
    = (Return tt,
       built_state Current default_build mixed_files (workspace mixed_disk))
  ∧ stderr (built_state Current default_build mixed_files
              (workspace mixed_disk))
    = ["Skipping /w/locked.md: EACCES: permission denied";
       "Skipping /w/notes.md: frontmatter[currentKey].push is not a function"]
  ∧ docCount (built_index Current default_build mixed_files
                (workspace mixed_disk)) = 1%nat
  ∧ ∃ files st',
      collectFiles (build_root default_build (cwd (workspace mixed_disk)))
                   mixed_tree default_build [] = Return files
      ∧ (∀ docs metadata st0,
           readDocuments Current
             (build_root default_build (cwd (workspace mixed_disk)))
             files docs metadata st0
           = (Return
                (docs ++ (fst <$> described Current
                            (build_root default_build
                               (cwd (workspace mixed_disk)))
                            (fs st0) files),
                 metadata ++ (snd <$> described Current
                                (build_root default_build
                                   (cwd (workspace mixed_disk)))
                                (fs st0) files)),
              log_lines (skip_warnings Current
                           (build_root default_build
                              (cwd (workspace mixed_disk)))
                           (fs st0) files) st0))
      ∧ (buildIndex Current default_build mixed_tree (workspace mixed_disk)
         = (Return tt, st')
         ∨ files = []
           ∧ buildIndex Current default_build mixed_tree
               (workspace mixed_disk) = (Exit 0, st'))
      ∧ stderr st'
        = stderr (workspace mixed_disk)
          ++ skip_warnings Current
               (build_root default_build (cwd (workspace mixed_disk)))
               (fs (workspace mixed_disk)) files
      ∧ (∀ filePath err,
           filePath ∈ files →
           read_result (fs (workspace mixed_disk)) filePath = inr err →
           ("Skipping " +:+ filePath +:+ ": " +:+ error_message err)
           ∈ skip_warnings Current
               (build_root default_build (cwd (workspace mixed_disk)))
               (fs (workspace mixed_disk)) files)
      ∧ (∀ dm,
           dm ∈ described Current
                  (build_root default_build (cwd (workspace mixed_disk)))
                  (fs (workspace mixed_disk)) files →
           ∃ filePath content,
             filePath ∈ files
             ∧ read_result (fs (workspace mixed_disk)) filePath = inl content
             ∧ dm = describe Current
                      (build_root default_build (cwd (workspace mixed_disk)))
                      filePath content)
      ∧ (length (described Current
                   (build_root default_build (cwd (workspace mixed_disk)))
                   (fs (workspace mixed_disk)) files)
         + length (skip_warnings Current
                     (build_root default_build (cwd (workspace mixed_disk)))
                     (fs (workspace mixed_disk)) files)
         = length files)%nat
      ∧ (files ≠ [] →
         fs st' !! build_indexFile default_build (cwd (workspace mixed_disk))
         = Some (Content (JSON_stringify
                            (built_index Current default_build files
                               (workspace mixed_disk))))
         ∧ metadata (built_index Current default_build files
                       (workspace mixed_disk))
           = (snd <$> described Current
                        (build_root default_build
                           (cwd (workspace mixed_disk)))
                        (fs (workspace mixed_disk)) files)).
Proof.
  split_and!; [vm_compute; reflexivity..|].
  apply (buildIndex_skips_unreadable_files Current default_build mixed_tree
           (workspace mixed_disk)).
  - vm_compute; reflexivity.
  - intros code message. vm_compute. discriminate.
Defined.

(** * Further properties *)

(** ** The sparse encoding, read back *)

(** X1: [expandSparseVector] on any sparse vector and dimension.  The result
    has at least [dim] cells and reaches every index of the sparse vector,
    and is no longer than that takes; a cell holds the weight stored for its
    index, 0 when none is stored and the index is below [dim], and is a hole
    when none is stored and the index is [dim] or more. *)
Theorem expandSparseVector_cells (sparse : gmap nat number) (dim : nat) :
  (dim ≤ length (expandSparseVector sparse dim))%nat
  ∧ (∀ k, is_Some (sparse !! k) →
       (k < length (expandSparseVector sparse dim))%nat)
  ∧ (∀ k, (dim ≤ k < length (expandSparseVector sparse dim))%nat →
       ∃ j, (k ≤ j)%nat ∧ is_Some (sparse !! j))
  ∧ (∀ k, (k < length (expandSparseVector sparse dim))%nat →
       expandSparseVector sparse dim !! k
       = Some (match sparse !! k with
               | Some x => x
               | None => if decide (k < dim)%nat then Num 0 else NaN
               end)).
Proof.
  unfold expandSparseVector.
  apply (map_fold_weak_ind (λ dense (m : gmap nat number),
    (dim ≤ length dense)%nat
    ∧ (∀ k, is_Some (m !! k) → (k < length dense)%nat)
    ∧ (∀ k, (dim ≤ k < length dense)%nat →
         ∃ j, (k ≤ j)%nat ∧ is_Some (m !! j))
    ∧ (∀ k, (k < length dense)%nat →
         dense !! k
         = Some (match m !! k with
                 | Some x => x
                 | None => if decide (k < dim)%nat then Num 0 else NaN
                 end)))).
  - rewrite length_replicate. split_and!; [done| | |].
    + intros k [x Hx]. by rewrite lookup_empty in Hx.
    + intros k Hk. lia.
    + intros k Hk. rewrite lookup_empty, decide_True by done.
      by apply lookup_replicate_2.
  - intros i x m dense Hfresh (Hdim & Hkeys & Hneeded & Hcells).
    unfold array_set. destruct (decide (i < length dense)%nat) as [Hi|Hi].
    + rewrite length_insert. split_and!; [done| | |].
      * intros k Hk. destruct (decide (i = k)) as [<-|Hne]; [done|].
        rewrite lookup_insert_ne in Hk by done. by apply Hkeys.
      * intros k Hk. destruct (Hneeded k Hk) as (j & Hj & Hsome).
        exists j. split; [done|].
        destruct (decide (i = j)) as [<-|Hne].
        -- rewrite lookup_insert_eq. eauto.
        -- by rewrite lookup_insert_ne.
      * intros k Hk. destruct (decide (i = k)) as [<-|Hne].
        -- by rewrite list_lookup_insert_eq, lookup_insert_eq by done.
        -- rewrite list_lookup_insert_ne, lookup_insert_ne by done.
           by apply Hcells.
    + assert (Hlen : length (dense ++ replicate (i - length dense) NaN ++ [x])
                     = S i).
      { rewrite !length_app, length_replicate. simpl. lia. }
      rewrite Hlen. split_and!; [lia| | |].
      * intros k Hk. destruct (decide (i = k)) as [<-|Hne]; [lia|].
        rewrite lookup_insert_ne in Hk by done. apply Hkeys in Hk. lia.
      * intros k Hk. exists i. split; [lia|]. rewrite lookup_insert_eq. eauto.
      * intros k Hk. destruct (decide (k < length dense)%nat) as [Hin|Hout].
        -- rewrite lookup_app_l, lookup_insert_ne by lia. by apply Hcells.
        -- rewrite lookup_app_r by lia.
           destruct (decide (k = i)) as [->|Hne].
           ++ rewrite lookup_insert_eq, lookup_app_r
                by (rewrite length_replicate; lia).
              rewrite length_replicate, Nat.sub_diag. done.
           ++ rewrite lookup_insert_ne by done.
              rewrite lookup_app_l by (rewrite length_replicate; lia).
              rewrite lookup_replicate_2 by lia.
              destruct (m !! k) eqn:Hk'.
              ** assert (k < length dense)%nat by (apply Hkeys; eauto). lia.
              ** rewrite decide_False by lia. done.
Qed.

(** X2: decoding after encoding.  For a vector no longer than the dimension,
    expanding its sparse encoding gives the vector of its stored weights (the
    weight rounded to 4 decimal places, and 0 for a weight of 0), filled up
    with zeros to the dimension. *)
Theorem expand_toSparse (vec : list number) (dim : nat) :
  (length vec ≤ dim)%nat →
  expandSparseVector (toSparse vec) dim
  = (stored_weight <$> vec) ++ replicate (dim - length vec) (Num 0).
Proof.
  intros Hdim.
  assert (Hkeys : ∀ k, is_Some (toSparse vec !! k) → (k < dim)%nat).
  { intros k Hk. apply toSparse_keys in Hk. lia. }
  destruct (expandSparseVector_lookup _ _ Hkeys) as [Hlen Hlook].
  apply list_eq. intros k.
  destruct (decide (k < dim)%nat) as [Hk|Hk].
  - rewrite (Hlook k Hk), toSparse_lookup.
    destruct (decide (k < length vec)%nat) as [Hin|Hout].
    + rewrite lookup_app_l by (by rewrite length_fmap).
      rewrite list_lookup_fmap.
      destruct (lookup_lt_is_Some_2 vec k Hin) as [x ->].
      unfold stored_weight. simpl. by destruct (num_nonzero x).
    + rewrite (lookup_ge_None_2 vec) by lia.
      rewrite lookup_app_r by (rewrite length_fmap; lia).
      rewrite lookup_replicate_2; [done|]. rewrite length_fmap. lia.
  - rewrite !lookup_ge_None_2; [done| |lia].
    rewrite length_app, length_fmap, length_replicate. lia.
Qed.

Lemma expand_toSparse_witness :
  (length [Num (3 # 10); Num 0; Num (1 # 3)] ≤ 4)%nat
  ∧ expandSparseVector (toSparse [Num (3 # 10); Num 0; Num (1 # 3)]) 4
    = (stored_weight <$> [Num (3 # 10); Num 0; Num (1 # 3)])
      ++ replicate (4 - length [Num (3 # 10); Num 0; Num (1 # 3)]) (Num 0).
Proof.
  split; [simpl; lia|].
  apply (expand_toSparse [Num (3 # 10); Num 0; Num (1 # 3)] 4). simpl; lia.
Defined.

Lemma toSparse_from_size vec i (sparse : gmap nat number) :
  (∀ k, is_Some (sparse !! k) → (k < i)%nat) →
  size (toSparse_from i vec sparse)
  = (size sparse + length (List.filter num_nonzero vec))%nat.
Proof.
  revert i sparse. induction vec as [|x rest IH]; intros i sparse Hkeys.
  - simpl. lia.
  - cbn [toSparse_from List.filter]. destruct (num_nonzero x).
    + rewrite IH.
      * rewrite map_size_insert_None; [simpl; lia|].
        destruct (sparse !! i) eqn:Hi; [|done].
        assert (i < i)%nat by (apply Hkeys; eauto). lia.
      * intros k Hk. destruct (decide (i = k)) as [<-|Hne]; [lia|].
        rewrite lookup_insert_ne in Hk by done. apply Hkeys in Hk. lia.
    + rewrite IH; [done|]. intros k Hk. apply Hkeys in Hk. lia.
Qed.

(** X4: the sparse encoding of a vector has one entry for each weight that
    is not zero, and no other: its size is the number of such weights. *)
Theorem toSparse_size (vec : list number) :
  size (toSparse vec) = length (List.filter num_nonzero vec)
  ∧ ∀ i, is_Some (toSparse vec !! i)
         ↔ ∃ x, vec !! i = Some x ∧ num_nonzero x = true.
Proof.
  split.
  - unfold toSparse. rewrite toSparse_from_size.
    + by rewrite map_size_empty.
    + intros k [x Hx]. by rewrite lookup_empty in Hx.
  - intros i. rewrite toSparse_lookup. destruct (vec !! i) as [x|].
    + destruct (num_nonzero x) eqn:Hnz.
      * split; [eauto|]. intros _. eauto.
      * split; [by intros [? [=]]|]. intros (y & [= <-] & Hy). congruence.
    + split; [by intros [? [=]]|]. by intros (y & [=] & _).
Qed.

(** ** The result list *)

Lemma has_score_both_not_lt k x y :
  has_score k x = true → has_score k y = true →
  ¬ num_lt (res_similarity x) (res_similarity y).
Proof.
  unfold has_score.
  destruct (res_similarity x) as [a|], (res_similarity y) as [b|];
    try discriminate.
  intros Ha%Qeq_bool_iff Hb%Qeq_bool_iff. simpl. rewrite Ha, Hb.
  apply Qlt_irrefl.
Qed.

(** The sort is stable: the entries that report a given score keep the order
    they had. *)
Lemma sort_insert_stable k x l :
  is_Num (res_similarity x) →
  Forall (λ r, is_Num (res_similarity r)) l →
  List.filter (has_score k) (sort_insert by_similarity x l)
  = List.filter (has_score k) (x :: l).
Proof.
  intros Hx Hl. induction Hl as [|y l Hy Hl IH]; [done|].
  cbn [sort_insert]. destruct (num_pos (by_similarity x y)) eqn:Hpos; [|done].
  apply num_pos_sub in Hpos; [|done..].
  cbn [List.filter] in *. rewrite IH.
  destruct (has_score k x) eqn:Hkx, (has_score k y) eqn:Hky; try done.
  by destruct (has_score_both_not_lt k x y).
Qed.

Lemma Array_sort_stable k l :
  Forall (λ r, is_Num (res_similarity r)) l →
  List.filter (has_score k) (Array_sort by_similarity l)
  = List.filter (has_score k) l.
Proof.
  induction 1 as [|x l Hx Hl IH]; [done|].
  unfold Array_sort in *. cbn [foldr].
  rewrite sort_insert_stable; [|done|].
  - cbn [List.filter]. by rewrite IH.
  - fold (Array_sort by_similarity l). by rewrite Array_sort_perm.
Qed.

Section results.
Context `{NodePath, Quarrel}.

Lemma kept_presented_numeric index options qc :
  Forall (λ r, is_Num (res_similarity r))
         (present_scored <$> kept index options qc).
Proof.
  apply Forall_fmap, Forall_forall. intros ms Hms.
  apply elem_of_kept in Hms as [Hk _].
  apply keeps_threshold in Hk as [_ Hn]. by apply round2_is_Num.
Qed.

(** X6: the entries [findSimilar] returns are the best ones.  The kept
    candidates are the returned entries together with the dropped ones, no
    dropped entry reports a higher score than a returned one, and nothing is
    dropped when the limit is at least the number of kept candidates. *)
Theorem findSimilar_returns_the_best index options st found st' :
  findSimilar index options st = (Return found, st') →
  ∃ qc dropped,
    getQueryContent (find_query options) (find_isText options)
                    (workspaceRoot_of index) st = (Return qc, st')
    ∧ found_results found ++ dropped
      ≡ₚ present_scored <$> kept index options qc
    ∧ (∀ r d, r ∈ found_results found → d ∈ dropped →
         num_le (res_similarity d) (res_similarity r))
    ∧ ((Z.of_nat (length (kept index options qc))
        ≤ ToIntegerOrInfinity (find_top options))%Z →
       dropped = []).
Proof.
  intros Hf. apply findSimilar_Return in Hf as (qc & Hq & ->).
  set (sorted := Array_sort by_similarity
                   (present_scored <$> kept index options qc)).
  unfold Array_slice0.
  set (k := Z.to_nat _).
  exists qc, (drop k sorted). split_and!; [done| | |].
  - rewrite take_drop. apply Array_sort_perm.
  - intros r d Hr Hd.
    pose proof (Array_sort_by_similarity _
                  (kept_presented_numeric index options qc)) as Hsorted.
    fold sorted in Hsorted. unfold reported_descending in Hsorted.
    rewrite <- (take_drop k sorted) in Hsorted.
    by apply (StronglySorted_app_1_elem_of _ _ _ _ _ Hsorted).
  - intros Hall. apply drop_ge.
    assert (Hlen : length sorted = length (kept index options qc)).
    { unfold sorted. by rewrite Array_sort_perm, length_fmap. }
    subst k. rewrite Hlen in *.
    destruct (Z.ltb_spec (ToIntegerOrInfinity (find_top options)) 0); lia.
Qed.

(** X7: among the entries [findSimilar] returns, those that report the same
    score stand in index order: they are the first of the kept candidates
    with that score, in the order of the index. *)
Theorem findSimilar_keeps_index_order_on_ties index options st found st' k :
  findSimilar index options st = (Return found, st') →
  ∃ qc,
    getQueryContent (find_query options) (find_isText options)
                    (workspaceRoot_of index) st = (Return qc, st')
    ∧ List.filter (has_score k) (found_results found)
      `prefix_of` List.filter (has_score k)
                    (present_scored <$> kept index options qc).
Proof.
  intros Hf. apply findSimilar_Return in Hf as (qc & Hq & ->).
  exists qc. split; [done|].
  rewrite <- (Array_sort_stable k _ (kept_presented_numeric index options qc)).
  destruct (Array_slice0_take
              (Array_sort by_similarity
                 (present_scored <$> kept index options qc))
              (find_top options)) as [n ->].
  rewrite <- (take_drop n (Array_sort _ _)) at 2.
  rewrite List.filter_app. by apply prefix_app_r.
Qed.
End results.

Lemma findSimilar_returns_the_best_witness :
  findSimilar near_index near_options_minus_one (workspace ∅)
  = (Return near_found_minus_one, workspace ∅)
  ∧ ∃ qc dropped,
      getQueryContent (find_query near_options_minus_one)
                      (find_isText near_options_minus_one)
                      (workspaceRoot_of near_index) (workspace ∅)
      = (Return qc, workspace ∅)
      ∧ found_results near_found_minus_one ++ dropped
        ≡ₚ present_scored <$> kept near_index near_options_minus_one qc
      ∧ (∀ r d, r ∈ found_results near_found_minus_one → d ∈ dropped →
           num_le (res_similarity d) (res_similarity r))
      ∧ ((Z.of_nat (length (kept near_index near_options_minus_one qc))
          ≤ ToIntegerOrInfinity (find_top near_options_minus_one))%Z →
         dropped = []).
Proof.
  split; [vm_compute; reflexivity|].
  apply (findSimilar_returns_the_best near_index near_options_minus_one
           (workspace ∅) near_found_minus_one (workspace ∅)).
  vm_compute; reflexivity.
Defined.

Lemma findSimilar_keeps_index_order_on_ties_witness :
  findSimilar near_index near_options (workspace ∅)
  = (Return near_found, workspace ∅)
  ∧ ∃ qc,
      getQueryContent (find_query near_options) (find_isText near_options)
                      (workspaceRoot_of near_index) (workspace ∅)
      = (Return qc, workspace ∅)
      ∧ List.filter (has_score (1 # 10)) (found_results near_found)
        `prefix_of` List.filter (has_score (1 # 10))
                      (present_scored <$> kept near_index near_options qc).
Proof.
  split; [vm_compute; reflexivity|].
  apply (findSimilar_keeps_index_order_on_ties near_index near_options
           (workspace ∅) near_found (workspace ∅) (1 # 10)).
  vm_compute; reflexivity.
Defined.

(** ** The query: errors and edges *)

Section query_edges.
Context `{NodePath, Quarrel}.

(** The part of [findSimilar] after the index was loaded reads only, and
    writes to the error stream only when the query file cannot be read. *)
Lemma ranking_reads_only index options st o st' :
  findSimilar index options st = (o, st') →
  fs st' = fs st
  ∧ calls st' = calls st
  ∧ cwd st' = cwd st
  ∧ (stderr st' = stderr st
     ∨ o = Exit 1 ∧ find_isText options = false
       ∧ ∃ e, stderr st'
              = stderr st ++ ["Cannot read file: " +:+ find_query options;
                              error_message e]).
Proof.
  unfold findSimilar, getQueryContent. destruct (find_isText options); run.
  - destruct (scan _ _ _ _ _ _ _ _); intros [= <- <-]; split_and!;
      by try left.
  - destruct (read_result _ _) as [content|e]; run.
    + destruct (scan _ _ _ _ _ _ _ _); intros [= <- <-]; split_and!;
        by try left.
    + unfold console_error. run. intros [= <- <-]. split_and!; [done..|].
      right. split_and!; [done..|]. exists e.
      cbn [log_lines stderr]. by rewrite <- app_assoc.
Qed.

Lemma ranking_unreadable_query index options st e :
  find_isText options = false →
  read_result (fs st) (query_file_path (cwd st) (find_query options)) = inr e →
  findSimilar index options st
  = (Exit 1,
     log_lines ["Cannot read file: " +:+ find_query options; error_message e]
               st).
Proof.
  intros Ht He. unfold findSimilar, getQueryContent. rewrite Ht. run.
  rewrite He. run. unfold console_error. run. by rewrite log_lines_app.
Qed.
End query_edges.

Section query_loading.
Context `{NodePath, Quarrel, Builtins, IndexView}.

(** [loadIndex] leaves the state as it was, unless it ends the process: that
    it does with status 1, after the four lines that tell of the missing
    index. *)
Lemma loadIndex_ends indexDir st o st' :
  loadIndex indexDir st = (o, st') →
  (st' = st ∧ ∀ status, o ≠ Exit status)
  ∨ (o = Exit 1
     ∧ st' = log_lines
               (index_not_found_lines
                  (getIndexFile (or_else indexDir (getDefaultIndexDir (cwd st)))))
               st).
Proof.
  unfold loadIndex. run.
  destruct (read_result _ _) as [data|e]; run.
  - destruct (JSON_parse data) as [j|]; run.
    2: { intros [= <- <-]. by left. }
    assert (Hcase : j = JNull ∨ j ≠ JNull)
      by (destruct j; (by left) || (by right)).
    destruct Hcase as [->|Hj].
    { cbn [json_get]. run. intros [= <- <-]. by left. }
    rewrite !(json_get_field j) by done. run.
    destruct (truthy (json_field j "version")); run.
    2: { intros [= <- <-]. by left. }
    destruct (truthy (json_field j "vectors")); run.
    2: { intros [= <- <-]. by left. }
    destruct (truthy (json_field j "metadata")); run;
      intros [= <- <-]; by left.
  - destruct (bool_decide _); run.
    + unfold console_error. run. intros [= <- <-]. right.
      split; [done|]. by rewrite !log_lines_app.
    + intros [= <- <-]. by left.
Qed.

(** X8: a query changes no file and makes no call that does: however
    [findSimilar] ends, with the index loaded or not, the file system and the
    working directory are as they were.  The error stream gets lines in two
    cases only, and both end the process with status 1: the four lines that
    tell of a missing index, and the two lines that tell, in a file query, of
    a query file that cannot be read. *)
Theorem findSimilar_reads_only options st o st' :
  findSimilar_loading options st = (o, st') →
  fs st' = fs st
  ∧ calls st' = calls st
  ∧ cwd st' = cwd st
  ∧ (stderr st' = stderr st
     ∨ o = Exit 1
       ∧ (stderr st'
          = stderr st
            ++ index_not_found_lines
                 (getIndexFile (or_else (find_indexDir options)
                                        (getDefaultIndexDir (cwd st))))
          ∨ find_isText options = false
            ∧ ∃ e, stderr st'
                   = stderr st ++ ["Cannot read file: " +:+ find_query options;
                                   error_message e])).
Proof.
  unfold findSimilar_loading. run.
  destruct (loadIndex (find_indexDir options) st) as [[loaded|e|status] st1]
    eqn:Hload; apply loadIndex_ends in Hload as [[-> Hnot]|[Hexit ->]];
    try discriminate Hexit.
  - intros Hrank.
    apply ranking_reads_only in Hrank as (Hfs & Hcalls & Hcwd & Herr).
    split_and!; [done..|].
    destruct Herr as [Herr|(-> & Ht & e & Herr)]; [by left|].
    right. split; [done|]. right. split; [done|]. by exists e.
  - intros [= <- <-]. split_and!; [done..|]. by left.
  - by destruct (Hnot status).
  - injection Hexit as ->. intros [= <- <-]. split_and!; [done..|].
    right. split; [done|]. by left.
Qed.

(** X9: a file query whose file cannot be read ends the process with status
    1, after two lines on the error stream, the query as it was given and
    the message of the error, when the index was loaded; the index is loaded
    first, and when that throws or ends the process the query ends in the
    same way and the query file is not read. *)
Theorem findSimilar_unreadable_query options st e :
  find_isText options = false →
  read_result (fs st) (query_file_path (cwd st) (find_query options)) = inr e →
  (∀ loaded st1,
     loadIndex (find_indexDir options) st = (Return loaded, st1) →
     findSimilar_loading options st
     = (Exit 1,
        log_lines ["Cannot read file: " +:+ find_query options;
                   error_message e] st))
  ∧ (∀ err st1,
       loadIndex (find_indexDir options) st = (Throw err, st1) →
       findSimilar_loading options st = (Throw err, st1))
  ∧ (∀ status st1,
       loadIndex (find_indexDir options) st = (Exit status, st1) →
       findSimilar_loading options st = (Exit status, st1)).
Proof.
  intros Ht He. unfold findSimilar_loading. run. split_and!.
  - intros loaded st1 Hload. rewrite Hload.
    apply loadIndex_ends in Hload as [[-> _]|[[=] _]].
    by apply ranking_unreadable_query.
  - intros err st1 Hload. by rewrite Hload.
  - intros status st1 Hload. by rewrite Hload.
Qed.
End query_loading.

Section query_edges_more.
Context `{NodePath, Quarrel}.

Lemma scan_short_metadata index options wr qc qv i vecs acc :
  find_isText options = false →
  (i ≤ length (metadata index))%nat →
  (length (metadata index) < i + length vecs)%nat →
  scan index options wr qc qv i vecs acc = Throw missing_metadata_error.
Proof.
  intros Ht. revert i acc.
  induction vecs as [|v rest IH]; intros i acc Hi Hshort.
  - simpl in Hshort. lia.
  - cbn [scan]. rewrite Ht. unfold metadata_at.
    destruct (metadata index !! i) as [m|] eqn:Hm; run; [|done].
    assert (Hnext : (S i ≤ length (metadata index))%nat)
      by (by apply lookup_lt_Some in Hm).
    assert (Hrest : (length (metadata index) < S i + length rest)%nat)
      by (simpl in Hshort; lia).
    destruct (is_self wr qc m); [by apply IH|].
    destruct (num_ge _ _); by apply IH.
Qed.

(** X10: a file query on an index that has more vectors than metadata
    records throws a [TypeError]: the loop reads the path of a record that is
    not there. *)
Theorem findSimilar_short_metadata index options st content :
  find_isText options = false →
  read_result (fs st) (query_file_path (cwd st) (find_query options))
  = inl content →
  (length (metadata index) < length (vectors index))%nat →
  findSimilar index options st = (Throw missing_metadata_error, st).
Proof.
  intros Ht Hread Hshort. unfold findSimilar, getQueryContent.
  rewrite Ht. run. rewrite Hread. run.
  rewrite scan_short_metadata; [done..|lia|simpl; lia].
Qed.

(** X11: with a threshold that is not a number, or a limit that is zero or
    not a number, [findSimilar] returns no entry at all, whatever the index
    holds. *)
Theorem findSimilar_nothing_found index options st found st' :
  find_threshold options = NaN
  ∨ ToIntegerOrInfinity (find_top options) = 0%Z →
  findSimilar index options st = (Return found, st') →
  found_results found = [].
Proof.
  intros Hedge Hf. apply findSimilar_Return in Hf as (qc & _ & ->).
  destruct Hedge as [Hnan|Hzero].
  - assert (Hnone : kept index options qc = []).
    { unfold kept. induction (scored index qc) as [|ms l IH]; [done|].
      cbn [List.filter]. unfold keeps at 1. rewrite Hnan.
      replace (num_ge ms.2 NaN) with false by (by destruct ms.2).
      by rewrite andb_false_r. }
    rewrite Hnone. unfold Array_slice0. apply take_nil.
  - unfold Array_slice0. rewrite Hzero. simpl.
    by rewrite Z.min_l by lia.
Qed.

Lemma scan_metadata_agree index index' options wr qc qv i vecs acc :
  hashDim index' = hashDim index →
  (∀ j, (i ≤ j < i + length vecs)%nat →
     metadata index' !! j = metadata index !! j) →
  scan index' options wr qc qv i vecs acc
  = scan index options wr qc qv i vecs acc.
Proof.
  intros Hdim. revert i acc.
  induction vecs as [|v rest IH]; intros i acc Hagree; [done|].
  cbn [scan]. unfold metadata_at. rewrite Hdim, (Hagree i) by (simpl; lia).
  assert (Hrest : ∀ j, (S i ≤ j < S i + length rest)%nat →
                       metadata index' !! j = metadata index !! j).
  { intros j Hj. apply Hagree. simpl. lia. }
  destruct (find_isText options); run.
  - destruct (num_ge _ _); [|by apply IH].
    destruct (metadata index !! i); run; [by apply IH|done].
  - destruct (metadata index !! i); run; [|done].
    destruct (is_self wr qc _); [by apply IH|].
    destruct (num_ge _ _); by apply IH.
Qed.

(** X12: metadata records beyond the last vector play no part: a query on
    an index gives what it gives on the index whose metadata is cut to the
    number of vectors. *)
Theorem findSimilar_ignores_surplus_metadata index options st :
  findSimilar
    (with_metadata index (take (length (vectors index)) (metadata index)))
    options st
  = findSimilar index options st.
Proof.
  unfold findSimilar. run.
  change (workspaceRoot_of (with_metadata index _))
    with (workspaceRoot_of index).
  destruct (getQueryContent _ _ _ st) as [[qc| |] st1]; [|done..].
  change (queryVector_of (with_metadata index _) qc)
    with (queryVector_of index qc).
  cbn [with_metadata vectors].
  rewrite (scan_metadata_agree index); [done..|].
  intros j Hj. cbn [with_metadata metadata]. apply lookup_take_lt. lia.
Qed.
End query_edges_more.

Lemma findSimilar_unreadable_query_witness :
  find_isText self_options = false
  ∧ read_result (fs (workspace lopsided_disk))
      (query_file_path (cwd (workspace lopsided_disk))
                       (find_query self_options))
    = inr (enoent "/w/a.md")
  ∧ loadIndex (find_indexDir self_options) (workspace lopsided_disk)
    = (Return (lopsided_json, "/w/.similar-files/index.json"),
       workspace lopsided_disk)
  ∧ findSimilar_loading self_options (workspace lopsided_disk)
    = (Exit 1,
       log_lines ["Cannot read file: " +:+ find_query self_options;
                  error_message (enoent "/w/a.md")]
                 (workspace lopsided_disk)).
Proof.
  assert (Hread : read_result (fs (workspace lopsided_disk))
                    (query_file_path (cwd (workspace lopsided_disk))
                                     (find_query self_options))
                  = inr (enoent "/w/a.md")) by (vm_compute; reflexivity).
  split_and!; [reflexivity|exact Hread|vm_compute; reflexivity|].
  apply (proj1 (findSimilar_unreadable_query self_options
                  (workspace lopsided_disk) (enoent "/w/a.md")
                  eq_refl Hread)
           (lopsided_json, "/w/.similar-files/index.json")
           (workspace lopsided_disk)).
  vm_compute; reflexivity.
Defined.

Lemma findSimilar_short_metadata_witness :
  find_isText self_options = false
  ∧ (length (metadata (with_metadata self_index [meta_of "a.md" "a"]))
     < length (vectors (with_metadata self_index [meta_of "a.md" "a"])))%nat
  ∧ findSimilar (with_metadata self_index [meta_of "a.md" "a"]) self_options
                (workspace self_disk)
    = (Throw missing_metadata_error, workspace self_disk).
Proof.
  split_and!; [reflexivity|simpl; lia|].
  apply (findSimilar_short_metadata
           (with_metadata self_index [meta_of "a.md" "a"]) self_options
           (workspace self_disk) "alpha");
    [reflexivity|vm_compute; reflexivity|simpl; lia].
Defined.

(** ** The traversal, again *)

Section traversal_more.
Context `{NodePath, Builtins}.
Variable options : BuildOptions.

Lemma collectEntries_accumulates dir entries :
  Forall (λ entry, match entry with
                   | DirEnt _ sub =>
                       ∀ d, ∃ more, ∀ files,
                         collectFiles d sub options files
                         = Return (files ++ more)
                   | _ => True
                   end) entries →
  ∃ more, ∀ files,
    collectEntries (λ d sub fs, collectFiles d sub options fs) dir
      (list_to_set (excludedDirs_of options))
      (list_to_set (allowedExtensions_of options)) entries files
    = Return (files ++ more).
Proof.
  induction 1 as [|entry rest Hentry _ [more IH]].
  - exists []. intros files. by rewrite app_nil_r.
  - destruct entry as [name|name sub|name].
    + destruct (bool_decide (toLowerCase (extname name)
                  ∈ (list_to_set (allowedExtensions_of options) : gset string)))
        eqn:Hext.
      * exists (join dir name :: more). intros files.
        rewrite collectEntries_cons, Hext, IH. by rewrite <- app_assoc.
      * exists more. intros files. by rewrite collectEntries_cons, Hext, IH.
    + destruct (negb (bool_decide (name
                  ∈ (list_to_set (excludedDirs_of options) : gset string)))
                && negb (startsWith_dot name)) eqn:Hdesc.
      * destruct (Hentry (join dir name)) as [below Hbelow].
        exists (below ++ more). intros files.
        rewrite collectEntries_cons, Hdesc, Hbelow. cbn [mbind outcome_bind].
        by rewrite IH, <- app_assoc.
      * exists more. intros files. by rewrite collectEntries_cons, Hdesc, IH.
    + exists more. intros files. by rewrite collectEntries_cons, IH.
Qed.

(** X13: what [collectFiles] adds does not depend on the array it is given:
    the call returns that array followed by what the call on an empty array
    returns. *)
Theorem collectFiles_accumulates dir here :
  ∃ more,
    collectFiles dir here options [] = Return more
    ∧ ∀ files, collectFiles dir here options files = Return (files ++ more).
Proof.
  assert (Hall : ∀ d, ∃ more, ∀ files,
            collectFiles d here options files = Return (files ++ more)).
  { induction here as [e|entries IH] using listing_ind'; intros d.
    - exists []. intros files. by rewrite app_nil_r.
    - destruct (collectEntries_accumulates d entries IH) as [more Hmore].
      exists more. intros files. by rewrite collectFiles_Entries. }
  destruct (Hall dir) as [more Hmore]. exists more. split; [|done].
  by rewrite (Hmore []).
Qed.

(** X14: a regular file whose lower-cased extension is not in the allowed
    set has no part in the traversal: the result is the one without its
    entry. *)
Theorem collectFiles_ignores_other_extensions dir pre name post files :
  toLowerCase (extname name) ∉ allowedExtensions_of options →
  collectFiles dir (Entries (pre ++ FileEnt name :: post)) options files
  = collectFiles dir (Entries (pre ++ post)) options files.
Proof.
  intros Hext. rewrite !collectFiles_Entries. revert files.
  induction pre as [|entry pre IH]; intros files; cbn [app].
  - rewrite collectEntries_cons.
    destruct (bool_decide _) eqn:Hin; [|done].
    apply bool_decide_eq_true, elem_of_list_to_set in Hin. done.
  - rewrite !collectEntries_cons.
    destruct entry as [n|n below|n]; [| |apply IH].
    + destruct (bool_decide _); apply IH.
    + destruct (negb _ && negb _); [|apply IH].
      destruct (collectFiles _ below _ _); cbn [mbind outcome_bind];
        [apply IH|done..].
Qed.
End traversal_more.

Lemma collectFiles_ignores_other_extensions_witness :
  (toLowerCase (extname "index.json") ∉ allowedExtensions_of default_build)
  ∧ collectFiles "/w" (Entries ([FileEnt "a.md"] ++ FileEnt "index.json"
                                   :: [FileEnt "b.py"]))
                 default_build []
    = collectFiles "/w" (Entries ([FileEnt "a.md"] ++ [FileEnt "b.py"]))
                   default_build [].
Proof.
  assert (Hext : toLowerCase (extname "index.json")
                 ∉ allowedExtensions_of default_build).
  { vm_compute. intros Hin.
    repeat (apply elem_of_cons in Hin as [Heq|Hin]; [discriminate Heq|]).
    by apply elem_of_nil in Hin. }
  split; [exact Hext|].
  apply (collectFiles_ignores_other_extensions default_build "/w"
           [FileEnt "a.md"] "index.json" [FileEnt "b.py"] [] Hext).
Defined.

(** ** The build: accounting, edges, and the way to the query *)

Section build_more.
Context `{NodePath, Quarrel, Builtins, TextTools}.
Variables (s : script) (options : BuildOptions) (tree : listing).

(** X15: a build that returns has accounted for every file it collected:
    the number of documents in the index it wrote and the number of warnings
    it put on the error stream add up to the number of collected files. *)
Theorem buildIndex_accounts_for_every_file st st' :
  buildIndex s options tree st = (Return tt, st') →
  ∃ files warnings,
    collectFiles (build_root options (cwd st)) tree options [] = Return files
    ∧ stderr st' = stderr st ++ warnings
    ∧ fs st' !! build_indexFile options (cwd st)
      = Some (Content (JSON_stringify (built_index s options files st)))
    ∧ (docCount (built_index s options files st) + length warnings
       = length files)%nat.
Proof.
  intros Hrun. apply buildIndex_Return in Hrun as (files & Hfiles & _ & ->).
  exists files, (skip_warnings s (build_root options (cwd st)) (fs st) files).
  split_and!; [done..| |].
  - unfold built_state. cbn [record_call fs]. by rewrite lookup_insert_eq.
  - unfold built_index, index_object. cbn [docCount].
    rewrite length_fmap. apply described_and_skipped.
Qed.

(** X16: when no file is collected the build ends the process with status
    0 and touches nothing: no directory is made and an index file written
    by an earlier build stays as it is. *)
Theorem buildIndex_nothing_to_index st :
  collectFiles (build_root options (cwd st)) tree options [] = Return [] →
  buildIndex s options tree st = (Exit 0, st).
Proof.
  intros Hnone.
  destruct (buildIndex_run s options tree st) as (files & Hfiles & ->).
  rewrite Hnone in Hfiles. by injection Hfiles as <-.
Qed.

(** X17: when files are collected and none of them can be read, the build
    still writes an index, one without documents: [docCount] is 0 and there
    is no metadata record, and each file has its warning. *)
Theorem buildIndex_all_unreadable st files :
  collectFiles (build_root options (cwd st)) tree options [] = Return files →
  files ≠ [] →
  (∀ f, f ∈ files → ∃ e, read_result (fs st) f = inr e) →
  fs st !! build_indexDir options (cwd st) = None →
  (∀ code message,
     fs st !! build_indexFile options (cwd st) ≠ Some (Failing code message)) →
  buildIndex s options tree st = (Return tt, built_state s options files st)
  ∧ docCount (built_index s options files st) = 0%nat
  ∧ metadata (built_index s options files st) = []
  ∧ length (stderr (built_state s options files st))
    = (length (stderr st) + length files)%nat.
Proof.
  intros Hfiles Hne Hall Hdir Hfile.
  assert (Hnone : described s (build_root options (cwd st)) (fs st) files = []).
  { unfold described. clear Hfiles Hne.
    induction files as [|f rest IH]; [done|]. cbn [omap list_omap].
    unfold file_result at 1. destruct (Hall f) as [e ->]; [by left|].
    apply IH. intros g Hg. apply Hall. by right. }
  split_and!.
  - destruct (buildIndex_run s options tree st) as (files' & Hfiles' & ->).
    rewrite Hfiles in Hfiles'. injection Hfiles' as <-.
    destruct files as [|f rest]; [done|]. rewrite Hdir.
    destruct (fs st !! build_indexFile options (cwd st)) as [[?|c m]|] eqn:E;
      [done| |done].
    by destruct (Hfile c m).
  - unfold built_index, index_object. cbn [docCount]. by rewrite Hnone.
  - unfold built_index, index_object. cbn [metadata]. by rewrite Hnone.
  - unfold built_state. cbn [record_call log_lines stderr].
    rewrite length_app. f_equal.
    pose proof (described_and_skipped s (build_root options (cwd st))
                  (fs st) files) as Hsum.
    rewrite Hnone in Hsum. simpl in Hsum. done.
Qed.

(** X18: an index that was built is found.  After a build that returned,
    [loadIndex] called in the same working directory for the place the build
    wrote to never reports that the index is missing, and returns the parsed
    text of the index that was written as soon as that value holds a truthy
    [version], [vectors] and [metadata]. *)
Theorem built_index_is_found st st' indexDir :
  buildIndex s options tree st = (Return tt, st') →
  getIndexFile (or_else indexDir (getDefaultIndexDir (cwd st)))
  = build_indexFile options (cwd st) →
  ∃ files,
    collectFiles (build_root options (cwd st)) tree options [] = Return files
    ∧ (∀ status st'', loadIndex indexDir st' ≠ (Exit status, st''))
    ∧ ∀ j, JSON_parse (JSON_stringify (built_index s options files st))
           = Some j →
           j ≠ JNull →
           truthy (json_field j "version") && truthy (json_field j "vectors")
           && truthy (json_field j "metadata") = true →
           loadIndex indexDir st'
           = (Return (j, build_indexFile options (cwd st)), st').
Proof.
  intros Hrun Hsame. apply buildIndex_Return in Hrun as (files & Hfiles & _ & ->).
  exists files. split; [done|].
  set (data := JSON_stringify (built_index s options files st)).
  assert (Hread : read_result (fs (built_state s options files st))
                    (build_indexFile options (cwd st)) = inl data).
  { unfold read_result, built_state. cbn [record_call fs].
    by rewrite lookup_insert_eq. }
  assert (Hload : loadIndex indexDir (built_state s options files st)
    = match JSON_parse data with
      | None => (Throw json_syntax_error, built_state s options files st)
      | Some j =>
          match json_get j "version" with
          | Return version =>
              if truthy version && truthy (json_field j "vectors")
                 && truthy (json_field j "metadata")
              then (Return (j, build_indexFile options (cwd st)),
                    built_state s options files st)
              else (Throw invalid_index_format, built_state s options files st)
          | Throw e => (Throw e, built_state s options files st)
          | Exit status => (Exit status, built_state s options files st)
          end
      end).
  { unfold loadIndex. run.
    change (cwd (built_state s options files st)) with (cwd st).
    rewrite Hsame, Hread. run.
    destruct (JSON_parse data) as [j|]; run; [|done].
    assert (Hcase : j = JNull ∨ j ≠ JNull)
      by (destruct j; (by left) || (by right)).
    destruct Hcase as [->|Hj]; [done|].
    rewrite !(json_get_field j) by done. run.
    destruct (truthy (json_field j "version")); run; [|done].
    destruct (truthy (json_field j "vectors")); run; [|done].
    destruct (truthy (json_field j "metadata")); run; done. }
  split.
  - intros status st''. rewrite Hload.
    destruct (JSON_parse data) as [j|]; [|done].
    destruct j; cbn [json_get]; try done;
      by destruct (truthy _ && truthy _ && truthy _).
  - intros j Hj Hnull Htruthy. rewrite Hload, Hj.
    rewrite json_get_field by done. by rewrite Htruthy.
Qed.
End build_more.

(** ** The command lines *)

Lemma is_flag_true arg a b : is_flag arg a b = true ↔ arg = a ∨ arg = b.
Proof.
  unfold is_flag. by rewrite orb_true_iff, !bool_decide_eq_true.
Qed.

Lemma is_flag_absent arg rest a b :
  a ∉ arg :: rest → b ∉ arg :: rest → is_flag arg a b = false.
Proof.
  intros Ha Hb. apply not_true_iff_false. rewrite is_flag_true.
  intros [->| ->]; [apply Ha|apply Hb]; by left.
Qed.

(** What [parseBaseArgs] leaves alone, for command lines of at most [n]
    words. *)
Lemma parseBaseArgs_untouched_upto n :
  ∀ args d, (length args ≤ n)%nat →
    opt_excludedDirs (base_options (parseBaseArgs args d))
    = opt_excludedDirs (base_options d)
    ∧ opt_allowedExtensions (base_options (parseBaseArgs args d))
      = opt_allowedExtensions (base_options d)
    ∧ ("--root" ∉ args → "-r" ∉ args →
       opt_root (base_options (parseBaseArgs args d))
       = opt_root (base_options d))
    ∧ ("--index" ∉ args → "-i" ∉ args →
       opt_indexDir (base_options (parseBaseArgs args d))
       = opt_indexDir (base_options d))
    ∧ ("--help" ∉ args → "-h" ∉ args →
       base_help (parseBaseArgs args d) = base_help d)
    ∧ ("--version" ∉ args → "-v" ∉ args →
       base_version (parseBaseArgs args d) = base_version d).
Proof.
  induction n as [|n IH]; intros args d Hlen.
  { destruct args; [|simpl in Hlen; lia]. by split_and!. }
  destruct args as [|arg rest]; [by split_and!|].
  cbn [parseBaseArgs].
  assert (Hrest : (length rest ≤ n)%nat) by (simpl in Hlen; lia).
  destruct (is_flag arg "--root" "-r") eqn:Hroot;
    [|destruct (is_flag arg "--index" "-i") eqn:Hindex;
      [|destruct (is_flag arg "--help" "-h") eqn:Hhelp;
        [|destruct (is_flag arg "--version" "-v") eqn:Hversion]]].
  - destruct rest as [|v rest'].
    + split_and!; try done. intros Ha Hb.
      by rewrite (is_flag_absent _ _ _ _ Ha Hb) in Hroot.
    + destruct (IH rest' (base_set_root (Some v) d))
        as (He & Ha & Hr & Hi & Hh & Hv); [simpl in Hrest; lia|].
      split_and!; try done.
      * intros Hx Hy. by rewrite (is_flag_absent _ _ _ _ Hx Hy) in Hroot.
      * intros Hx Hy. rewrite Hi; [done|..];
          intros Hin; [apply Hx|apply Hy]; by do 2 right.
      * intros Hx Hy. rewrite Hh; [done|..];
          intros Hin; [apply Hx|apply Hy]; by do 2 right.
      * intros Hx Hy. rewrite Hv; [done|..];
          intros Hin; [apply Hx|apply Hy]; by do 2 right.
  - destruct rest as [|v rest'].
    + split_and!; try done. intros Ha Hb.
      by rewrite (is_flag_absent _ _ _ _ Ha Hb) in Hindex.
    + destruct (IH rest' (base_set_indexDir (Some v) d))
        as (He & Ha & Hr & Hi & Hh & Hv); [simpl in Hrest; lia|].
      split_and!; try done.
      * intros Hx Hy. rewrite Hr; [done|..];
          intros Hin; [apply Hx|apply Hy]; by do 2 right.
      * intros Hx Hy. by rewrite (is_flag_absent _ _ _ _ Hx Hy) in Hindex.
      * intros Hx Hy. rewrite Hh; [done|..];
          intros Hin; [apply Hx|apply Hy]; by do 2 right.
      * intros Hx Hy. rewrite Hv; [done|..];
          intros Hin; [apply Hx|apply Hy]; by do 2 right.
  - destruct (IH rest {| base_options := base_options d; base_help := true;
                         base_version := base_version d |} Hrest)
      as (He & Ha & Hr & Hi & Hh & Hv).
    split_and!; try done.
    + intros Hx Hy. rewrite Hr; [done|..];
        intros Hin; [apply Hx|apply Hy]; by right.
    + intros Hx Hy. rewrite Hi; [done|..];
        intros Hin; [apply Hx|apply Hy]; by right.
    + intros Hx Hy. by rewrite (is_flag_absent _ _ _ _ Hx Hy) in Hhelp.
    + intros Hx Hy. rewrite Hv; [done|..];
        intros Hin; [apply Hx|apply Hy]; by right.
  - destruct (IH rest {| base_options := base_options d;
                         base_help := base_help d; base_version := true |}
                Hrest)
      as (He & Ha & Hr & Hi & Hh & Hv).
    split_and!; try done.
    + intros Hx Hy. rewrite Hr; [done|..];
        intros Hin; [apply Hx|apply Hy]; by right.
    + intros Hx Hy. rewrite Hi; [done|..];
        intros Hin; [apply Hx|apply Hy]; by right.
    + intros Hx Hy. rewrite Hh; [done|..];
        intros Hin; [apply Hx|apply Hy]; by right.
    + intros Hx Hy. by rewrite (is_flag_absent _ _ _ _ Hx Hy) in Hversion.
  - destruct (IH rest d Hrest) as (He & Ha & Hr & Hi & Hh & Hv).
    split_and!; try done.
    + intros Hx Hy. apply Hr; intros Hin; [apply Hx|apply Hy]; by right.
    + intros Hx Hy. apply Hi; intros Hin; [apply Hx|apply Hy]; by right.
    + intros Hx Hy. apply Hh; intros Hin; [apply Hx|apply Hy]; by right.
    + intros Hx Hy. apply Hv; intros Hin; [apply Hx|apply Hy]; by right.
Qed.

(** X19: [parseBaseArgs] changes an option only when one of its flags is
    among the words of the command line, and never touches the excluded
    directories or the allowed extensions: a build started from the command
    line collects with the default sets. *)
Theorem parseBaseArgs_untouched args d :
  excludedDirs_of (base_options (parseBaseArgs args no_base_args))
  = cfg_excludedDirs DEFAULT_CONFIG
  ∧ allowedExtensions_of (base_options (parseBaseArgs args no_base_args))
    = cfg_allowedExtensions DEFAULT_CONFIG
  ∧ opt_excludedDirs (base_options (parseBaseArgs args d))
    = opt_excludedDirs (base_options d)
  ∧ opt_allowedExtensions (base_options (parseBaseArgs args d))
    = opt_allowedExtensions (base_options d)
  ∧ ("--root" ∉ args → "-r" ∉ args →
     opt_root (base_options (parseBaseArgs args d))
     = opt_root (base_options d))
  ∧ ("--index" ∉ args → "-i" ∉ args →
     opt_indexDir (base_options (parseBaseArgs args d))
     = opt_indexDir (base_options d))
  ∧ ("--help" ∉ args → "-h" ∉ args →
     base_help (parseBaseArgs args d) = base_help d)
  ∧ ("--version" ∉ args → "-v" ∉ args →
     base_version (parseBaseArgs args d) = base_version d).
Proof.
  destruct (parseBaseArgs_untouched_upto (length args) args no_base_args)
    as (He & Ha & _); [done|].
  split; [|split]; [| |by apply (parseBaseArgs_untouched_upto (length args))].
  - unfold excludedDirs_of. by rewrite He.
  - unfold allowedExtensions_of. by rewrite Ha.
Qed.

Section find_args.
Context `{NumberParsing}.

(** What one word leaves alone. *)
Lemma find_arg_step_untouched arg value r :
  (is_flag arg "--top" "-n" = false →
   fa_top (find_arg_step arg value r).1 = fa_top r)
  ∧ (bool_decide (arg = "--threshold") = false →
     fa_threshold (find_arg_step arg value r).1 = fa_threshold r)
  ∧ (is_flag arg "--text" "-t" = false →
     fa_isText (find_arg_step arg value r).1 = fa_isText r)
  ∧ (is_flag arg "--index" "-i" = false →
     fa_indexDir (find_arg_step arg value r).1 = fa_indexDir r)
  ∧ (bool_decide (arg = "--json") = false →
     fa_json (find_arg_step arg value r).1 = fa_json r)
  ∧ (is_flag arg "--help" "-h" = false →
     fa_help (find_arg_step arg value r).1 = fa_help r)
  ∧ (is_flag arg "--text" "-t" = false → startsWith_dash arg = true →
     fa_query (find_arg_step arg value r).1 = fa_query r).
Proof.
  unfold find_arg_step.
  destruct (is_flag arg "--text" "-t"), (is_flag arg "--top" "-n"),
    (bool_decide (arg = "--threshold")), (is_flag arg "--index" "-i"),
    (bool_decide (arg = "--json")), (is_flag arg "--help" "-h"),
    (startsWith_dash arg); cbn; split_and!; congruence.
Qed.

(** The loop goes on with the words after the one it read, or after the
    value it took. *)
Lemma parseArgs_from_cons arg rest r :
  ∃ rest',
    (length rest' ≤ length rest)%nat
    ∧ (∀ word, word ∈ rest' → word ∈ rest)
    ∧ parseArgs_from (arg :: rest) r
      = parseArgs_from rest' (find_arg_step arg (head rest) r).1.
Proof.
  cbn [parseArgs_from]. destruct (find_arg_step arg (head rest) r).2.
  - destruct rest as [|v rest'].
    + exists []. by split_and!.
    + exists rest'. split_and!; [simpl; lia| |done]. intros word Hw. by right.
  - exists rest. by split_and!.
Qed.

Lemma parseArgs_from_untouched_upto n :
  ∀ args r, (length args ≤ n)%nat →
    ("--top" ∉ args → "-n" ∉ args →
     fa_top (parseArgs_from args r) = fa_top r)
    ∧ ("--threshold" ∉ args →
       fa_threshold (parseArgs_from args r) = fa_threshold r)
    ∧ ("--text" ∉ args → "-t" ∉ args →
       fa_isText (parseArgs_from args r) = fa_isText r)
    ∧ ("--index" ∉ args → "-i" ∉ args →
       fa_indexDir (parseArgs_from args r) = fa_indexDir r)
    ∧ ("--json" ∉ args → fa_json (parseArgs_from args r) = fa_json r)
    ∧ ("--help" ∉ args → "-h" ∉ args →
       fa_help (parseArgs_from args r) = fa_help r)
    ∧ ("--text" ∉ args → "-t" ∉ args →
       Forall (λ word, startsWith_dash word = true) args →
       fa_query (parseArgs_from args r) = fa_query r).
Proof.
  induction n as [|n IH]; intros args r Hlen.
  { destruct args; [|simpl in Hlen; lia]. by split_and!. }
  destruct args as [|arg rest]; [by split_and!|].
  destruct (parseArgs_from_cons arg rest r) as (rest' & Hshorter & Hsub & ->).
  destruct (find_arg_step_untouched arg (head rest) r)
    as (Stop & Sthreshold & Stext & Sindex & Sjson & Shelp & Squery).
  destruct (IH rest' (find_arg_step arg (head rest) r).1)
    as (Itop & Ithreshold & Itext & Iindex & Ijson & Ihelp & Iquery);
    [simpl in Hlen; lia|].
  assert (Hrest : ∀ flag, flag ∉ arg :: rest → flag ∉ rest').
  { intros flag Hflag Hin. apply Hflag. right. by apply Hsub. }
  assert (Hone : ∀ flag, flag ∉ arg :: rest →
                         bool_decide (arg = flag) = false).
  { intros flag Hflag. apply bool_decide_eq_false. intros ->.
    apply Hflag. by left. }
  split_and!.
  - intros Ha Hb. rewrite Itop by auto.
    apply Stop. by eapply is_flag_absent.
  - intros Ha. rewrite Ithreshold by auto. apply Sthreshold. auto.
  - intros Ha Hb. rewrite Itext by auto.
    apply Stext. by eapply is_flag_absent.
  - intros Ha Hb. rewrite Iindex by auto.
    apply Sindex. by eapply is_flag_absent.
  - intros Ha. rewrite Ijson by auto. apply Sjson. auto.
  - intros Ha Hb. rewrite Ihelp by auto.
    apply Shelp. by eapply is_flag_absent.
  - intros Ha Hb Hdash. apply Forall_cons in Hdash as [Harg Hdash].
    rewrite Iquery; [|auto..].
    + apply Squery; [by eapply is_flag_absent|done].
    + apply Forall_forall. intros word Hword.
      rewrite Forall_forall in Hdash. by apply Hdash, Hsub.
Qed.

(** X20: [parseArgs] of the query script gives an option its default
    unless one of its flags is among the words of the command line: the limit
    is 10, the threshold 0.1, the query is a file query, no index directory
    is set, and neither JSON output nor help is asked for; and it finds no
    query when every word starts with a dash and none is the text flag. *)
Theorem parseArgs_defaults args :
  ("--top" ∉ args → "-n" ∉ args → fa_top (parseArgs args) = Num 10)
  ∧ ("--threshold" ∉ args → fa_threshold (parseArgs args) = Num (1 # 10))
  ∧ ("--text" ∉ args → "-t" ∉ args → fa_isText (parseArgs args) = false)
  ∧ ("--index" ∉ args → "-i" ∉ args → fa_indexDir (parseArgs args) = None)
  ∧ ("--json" ∉ args → fa_json (parseArgs args) = false)
  ∧ ("--help" ∉ args → "-h" ∉ args → fa_help (parseArgs args) = false)
  ∧ ("--text" ∉ args → "-t" ∉ args →
     Forall (λ word, startsWith_dash word = true) args →
     fa_query (parseArgs args) = None).
Proof.
  apply (parseArgs_from_untouched_upto (length args) args initial_find_args).
  done.
Qed.
End find_args.

Section index_main_outcomes.
Context `{NodePath, Quarrel, Builtins, TextTools, NodeModule}.
Variables (s : script) (args : list string) (tree : listing).

(** X21: [main] of the index script never lets an error escape.  With the
    help flag it ends the process with status 0 and nothing is read.  With
    the version flag, and no help flag, it loads the package file: the
    process ends with status 0 when the file loads and is not [null], and an
    error of the load becomes one line on the error stream and the exit
    status 1.  Otherwise it ends as the build ends, except that an error
    thrown by the build becomes one line on the error stream and the exit
    status 1. *)
Theorem index_main_outcomes st :
  (base_help (parseBaseArgs args no_base_args) = true →
   index_main s args tree st = (Exit 0, st))
  ∧ (base_help (parseBaseArgs args no_base_args) = false →
     base_version (parseBaseArgs args no_base_args) = true →
     index_main s args tree st
     = match require_package_json (fs st) with
       | inl pkg =>
           match json_get pkg "version" with
           | Throw e =>
               (Exit 1,
                log_lines ["Index build failed: " +:+ error_message e] st)
           | _ => (Exit 0, st)
           end
       | inr e =>
           (Exit 1, log_lines ["Index build failed: " +:+ error_message e] st)
       end)
  ∧ (base_help (parseBaseArgs args no_base_args) = false →
     base_version (parseBaseArgs args no_base_args) = false →
     index_main s args tree st
     = match buildIndex s (base_options (parseBaseArgs args no_base_args))
                        tree st with
       | (Throw e, st1) =>
           (Exit 1,
            log_lines ["Index build failed: " +:+ error_message e] st1)
       | ended => ended
       end)
  ∧ ∀ e st', index_main s args tree st ≠ (Throw e, st').
Proof.
  unfold index_main, require_package. run.
  destruct (base_help (parseBaseArgs args no_base_args));
    [|destruct (base_version (parseBaseArgs args no_base_args))]; run.
  - split_and!; [done..|]. intros e st'. done.
  - destruct (require_package_json (fs st)) as [pkg|err]; run.
    + destruct pkg; cbn [json_get]; run; split_and!; try done;
        intros e st'; done.
    + split_and!; [done..|]. intros e st'. done.
  - split_and!; [done..| |].
    + intros _ _. by destruct (buildIndex _ _ _ _) as [[[]| |] st1].
    + intros e st'. by destruct (buildIndex _ _ _ _) as [[[]| |] st1].
Qed.
End index_main_outcomes.

Lemma index_main_outcomes_witness :
  base_help (parseBaseArgs ["--root"; "/w"; "-v"] no_base_args) = false
  ∧ base_version (parseBaseArgs ["--root"; "/w"; "-v"] no_base_args) = true
  ∧ index_main Current ["--root"; "/w"; "-v"] small_tree (workspace small_disk)
    = (Exit 1,
       log_lines ["Index build failed: Cannot find module '../package.json'"]
                 (workspace small_disk)).
Proof.
  split_and!; [reflexivity..|].
  exact (proj1 (proj2 (index_main_outcomes Current ["--root"; "/w"; "-v"]
                         small_tree (workspace small_disk)))
           eq_refl eq_refl).
Defined.

Lemma parseBaseArgs_untouched_witness :
  ("--root" ∉ ["-i"; "/idx"; "-h"])
  ∧ ("-r" ∉ ["-i"; "/idx"; "-h"])
  ∧ opt_root (base_options (parseBaseArgs ["-i"; "/idx"; "-h"] no_base_args))
    = opt_root (base_options no_base_args).
Proof.
  assert (Hlong : "--root" ∉ ["-i"; "/idx"; "-h"]).
  { intros Hin.
    repeat (apply elem_of_cons in Hin as [Heq|Hin]; [discriminate Heq|]).
    by apply elem_of_nil in Hin. }
  assert (Hshort : "-r" ∉ ["-i"; "/idx"; "-h"]).
  { intros Hin.
    repeat (apply elem_of_cons in Hin as [Heq|Hin]; [discriminate Heq|]).
    by apply elem_of_nil in Hin. }
  split_and!; [exact Hlong|exact Hshort|].
  exact (proj1 (proj2 (proj2 (proj2 (proj2
           (parseBaseArgs_untouched ["-i"; "/idx"; "-h"] no_base_args)))))
           Hlong Hshort).
Defined.

Lemma parseArgs_defaults_witness :
  ("--top" ∉ ["--threshold"; "-1"; "README.md"])
  ∧ ("-n" ∉ ["--threshold"; "-1"; "README.md"])
  ∧ fa_top (parseArgs ["--threshold"; "-1"; "README.md"]) = Num 10.
Proof.
  assert (Hlong : "--top" ∉ ["--threshold"; "-1"; "README.md"]).
  { intros Hin.
    repeat (apply elem_of_cons in Hin as [Heq|Hin]; [discriminate Heq|]).
    by apply elem_of_nil in Hin. }
  assert (Hshort : "-n" ∉ ["--threshold"; "-1"; "README.md"]).
  { intros Hin.
    repeat (apply elem_of_cons in Hin as [Heq|Hin]; [discriminate Heq|]).
    by apply elem_of_nil in Hin. }
  split_and!; [exact Hlong|exact Hshort|].
  exact (proj1 (parseArgs_defaults ["--threshold"; "-1"; "README.md"])
           Hlong Hshort).
Defined.

Lemma findSimilar_reads_only_witness :
  findSimilar_loading near_options (workspace ∅)
  = (Exit 1,
     log_lines (index_not_found_lines "/w/.similar-files/index.json")
               (workspace ∅))
  ∧ fs (log_lines (index_not_found_lines "/w/.similar-files/index.json")
                  (workspace ∅))
    = fs (workspace ∅)
  ∧ calls (log_lines (index_not_found_lines "/w/.similar-files/index.json")
                     (workspace ∅))
    = calls (workspace ∅)
  ∧ cwd (log_lines (index_not_found_lines "/w/.similar-files/index.json")
                   (workspace ∅))
    = cwd (workspace ∅)
  ∧ (stderr (log_lines (index_not_found_lines "/w/.similar-files/index.json")
                       (workspace ∅))
     = stderr (workspace ∅)
     ∨ @Exit Found 1 = Exit 1
       ∧ (stderr (log_lines
                    (index_not_found_lines "/w/.similar-files/index.json")
                    (workspace ∅))
          = stderr (workspace ∅)
            ++ index_not_found_lines
                 (getIndexFile (or_else (find_indexDir near_options)
                                  (getDefaultIndexDir (cwd (workspace ∅)))))
          ∨ find_isText near_options = false
            ∧ ∃ e, stderr (log_lines
                             (index_not_found_lines
                                "/w/.similar-files/index.json")
                             (workspace ∅))
                   = stderr (workspace ∅)
                     ++ ["Cannot read file: " +:+ find_query near_options;
                         error_message e])).
Proof.
  split; [vm_compute; reflexivity|].
  apply (findSimilar_reads_only near_options (workspace ∅) (Exit 1)
           (log_lines (index_not_found_lines "/w/.similar-files/index.json")
                      (workspace ∅))).
  vm_compute; reflexivity.
Defined.

Lemma findSimilar_nothing_found_witness :
  find_threshold {| find_query := "some words"; find_isText := true;
                    find_top := Num 10; find_threshold := NaN;
                    find_indexDir := None |} = NaN
  ∧ found_results {| found_results := []; found_query := "some words";
                     found_workspaceRoot := Some "/w" |} = [].
Proof.
  split; [reflexivity|].
  apply (findSimilar_nothing_found near_index
           {| find_query := "some words"; find_isText := true;
              find_top := Num 10; find_threshold := NaN;
              find_indexDir := None |}
           (workspace ∅)
           {| found_results := []; found_query := "some words";
              found_workspaceRoot := Some "/w" |}
           (workspace ∅)).
  - left; reflexivity.
  - vm_compute; reflexivity.
Defined.

Lemma buildIndex_accounts_for_every_file_witness :
  buildIndex Current default_build mixed_tree (workspace mixed_disk)
  = (Return tt,
     built_state Current default_build mixed_files (workspace mixed_disk))
  ∧ ∃ files warnings,
      collectFiles (build_root default_build (cwd (workspace mixed_disk)))
                   mixed_tree default_build [] = Return files
      ∧ stderr (built_state Current default_build mixed_files
                  (workspace mixed_disk))
        = stderr (workspace mixed_disk) ++ warnings
      ∧ fs (built_state Current default_build mixed_files
              (workspace mixed_disk))
        !! build_indexFile default_build (cwd (workspace mixed_disk))
        = Some (Content (JSON_stringify
                           (built_index Current default_build files
                              (workspace mixed_disk))))
      ∧ (docCount (built_index Current default_build files
                     (workspace mixed_disk))
         + length warnings = length files)%nat.
Proof.
  split; [vm_compute; reflexivity|].
  apply (buildIndex_accounts_for_every_file Current default_build mixed_tree
           (workspace mixed_disk)
           (built_state Current default_build mixed_files
              (workspace mixed_disk))).
  vm_compute; reflexivity.
Defined.

Lemma buildIndex_nothing_to_index_witness :
  collectFiles (build_root default_build (cwd (workspace lopsided_disk)))
               (Entries [FileEnt "notes.txt"; DirEnt ".git" (Entries [])])
               default_build [] = Return []
  ∧ buildIndex Current default_build
      (Entries [FileEnt "notes.txt"; DirEnt ".git" (Entries [])])
      (workspace lopsided_disk)
    = (Exit 0, workspace lopsided_disk).
Proof.
  split; [vm_compute; reflexivity|].
  apply (buildIndex_nothing_to_index Current default_build
           (Entries [FileEnt "notes.txt"; DirEnt ".git" (Entries [])])
           (workspace lopsided_disk)).
  vm_compute; reflexivity.
Defined.

Lemma buildIndex_all_unreadable_witness :
  collectFiles (build_root default_build (cwd (workspace ∅)))
               (Entries [FileEnt "gone.md"]) default_build []
  = Return ["/w/gone.md"]
  ∧ buildIndex Current default_build (Entries [FileEnt "gone.md"])
               (workspace ∅)
    = (Return tt,
       built_state Current default_build ["/w/gone.md"] (workspace ∅))
  ∧ docCount (built_index Current default_build ["/w/gone.md"] (workspace ∅))
    = 0%nat
  ∧ metadata (built_index Current default_build ["/w/gone.md"] (workspace ∅))
    = []
  ∧ length (stderr (built_state Current default_build ["/w/gone.md"]
                      (workspace ∅)))
    = (length (stderr (workspace ∅)) + length ["/w/gone.md"])%nat.
Proof.
  split; [vm_compute; reflexivity|].
  apply (buildIndex_all_unreadable Current default_build
           (Entries [FileEnt "gone.md"]) (workspace ∅) ["/w/gone.md"]).
  - vm_compute; reflexivity.
  - discriminate.
  - intros f Hf. apply list_elem_of_singleton in Hf as ->.
    exists (enoent "/w/gone.md"). vm_compute; reflexivity.
  - vm_compute; reflexivity.
  - intros code message. vm_compute. discriminate.
Defined.

Lemma built_index_is_found_witness :
  buildIndex Current default_build small_tree (workspace small_disk)
  = (Return tt, small_built)
  ∧ getIndexFile (or_else None (getDefaultIndexDir (cwd (workspace small_disk))))
    = build_indexFile default_build (cwd (workspace small_disk))
  ∧ ∀ status st'', loadIndex None small_built ≠ (Exit status, st'').
Proof.
  split_and!; [vm_compute; reflexivity..|].
  destruct (built_index_is_found Current default_build small_tree
              (workspace small_disk) small_built None)
    as (files & _ & Hfound & _); [vm_compute; reflexivity..|].
  exact Hfound.
Defined.

(** ** The build and the query together *)

Section build_and_query.
Context `{NodePath, Quarrel, Builtins, TextTools}.
Variables (s : script) (options : BuildOptions).

Lemma describe_path root filePath content :
  meta_path (describe s root filePath content).2 = relative root filePath.
Proof. unfold describe. by destruct s. Qed.

(** X22: the build and the query name a file alike.  The metadata record the
    build makes for a file is recognised as the query's own file by a file
    query that resolves to the path the build collected, on an index with the
    same root: the path of the record is the title of the query. *)
Theorem indexed_file_is_self root filePath content query st qc st' :
  getQueryContent query false (Some root) st = (Return qc, st') →
  query_file_path (cwd st) query = filePath →
  qc_title qc = meta_path (describe s root filePath content).2
  ∧ is_self (Some root) qc (describe s root filePath content).2 = true.
Proof.
  intros Hq Hpath. apply getQueryContent_Return in Hq as [_ [_ Htitle]].
  rewrite Hpath in Htitle. rewrite describe_path.
  split; [done|]. apply is_self_true. right. by rewrite describe_path.
Qed.

Lemma described_agree root disk disk' files :
  (∀ f, f ∈ files → read_result disk' f = read_result disk f) →
  described s root disk' files = described s root disk files.
Proof.
  unfold described. induction files as [|f rest IH]; intros Hsame; [done|].
  cbn [omap list_omap].
  assert (Hf : file_result s root disk' f = file_result s root disk f).
  { unfold file_result. by rewrite (Hsame f) by (by left). }
  rewrite Hf, IH; [done|]. intros g Hg. apply Hsame. by right.
Qed.

(** X23: building again reproduces the index.  After a build that returned,
    a build with the same options in the same working directory, on the tree
    that now has the hidden directory [.similar-files] and on the files as
    the first build left them, returns as well, and the index it writes has
    the same documents: metadata, vectors and [docCount] are those of the
    first index.  The index file must not be among the collected files, and
    the index directory must not be the index file. *)
Theorem rebuild_reproduces_index pre post sub files st st1 again :
  buildIndex s options (Entries (pre ++ post)) st = (Return tt, st1) →
  collectFiles (build_root options (cwd st)) (Entries (pre ++ post)) options []
  = Return files →
  build_indexFile options (cwd st) ∉ files →
  build_indexDir options (cwd st) ≠ build_indexFile options (cwd st) →
  fs again = fs st1 →
  cwd again = cwd st →
  buildIndex s options (Entries (pre ++ DirEnt ".similar-files" sub :: post))
             again
  = (Return tt, built_state s options files again)
  ∧ metadata (built_index s options files again)
    = metadata (built_index s options files st)
  ∧ vectors (built_index s options files again)
    = vectors (built_index s options files st)
  ∧ docCount (built_index s options files again)
    = docCount (built_index s options files st).
Proof.
  intros Hfirst Hfiles Hnot Hdir Hfs Hcwd.
  destruct (buildIndex_run s options (Entries (pre ++ post)) st)
    as (files0 & Hfiles0 & Hrun0).
  rewrite Hfiles in Hfiles0. injection Hfiles0 as <-.
  rewrite Hfirst in Hrun0.
  destruct files as [|f rest]; [done|].
  destruct (fs st !! build_indexDir options (cwd st)) as [[?|? ?]|] eqn:Edir;
    [done..|].
  assert (Hst1 : fs st1
    = <[build_indexFile options (cwd st)
        := Content (JSON_stringify (built_index s options (f :: rest) st))]>
        (fs st)).
  { destruct (fs st !! build_indexFile options (cwd st)) as [[?|? ?]|];
      [| done |]; by injection Hrun0 as ->. }
  assert (Hsame : described s (build_root options (cwd st)) (fs again)
                    (f :: rest)
                  = described s (build_root options (cwd st)) (fs st)
                      (f :: rest)).
  { apply described_agree. intros g Hg. unfold read_result.
    rewrite Hfs, Hst1, lookup_insert_ne; [done|]. by intros <-. }
  split_and!.
  - destruct (buildIndex_run s options
                (Entries (pre ++ DirEnt ".similar-files" sub :: post)) again)
      as (files' & Hfiles' & ->).
    rewrite Hcwd in Hfiles'.
    rewrite collectFiles_Entries, collectEntries_skip in Hfiles'
      by (by left).
    rewrite <- collectFiles_Entries, Hfiles in Hfiles'.
    injection Hfiles' as <-. rewrite Hcwd, Hfs, Hst1.
    rewrite lookup_insert_ne by done. rewrite Edir.
    by rewrite lookup_insert_eq.
  - unfold built_index, index_object. cbn [metadata]. by rewrite Hcwd, Hsame.
  - unfold built_index, index_object. cbn [vectors]. by rewrite Hcwd, Hsame.
  - unfold built_index, index_object. cbn [docCount]. by rewrite Hcwd, Hsame.
Qed.
End build_and_query.

Lemma indexed_file_is_self_witness :
  getQueryContent "a.md" false (Some "/w") (workspace self_disk)
  = (Return {| qc_content := "alpha"; qc_title := "a.md";
               qc_absolutePath := Some "/w/a.md" |},
     workspace self_disk)
  ∧ query_file_path (cwd (workspace self_disk)) "a.md" = "/w/a.md"
  ∧ qc_title {| qc_content := "alpha"; qc_title := "a.md";
                qc_absolutePath := Some "/w/a.md" |}
    = meta_path (describe Current "/w" "/w/a.md" "alpha").2
  ∧ is_self (Some "/w")
      {| qc_content := "alpha"; qc_title := "a.md";
         qc_absolutePath := Some "/w/a.md" |}
      (describe Current "/w" "/w/a.md" "alpha").2 = true.
Proof.
  split_and!; [vm_compute; reflexivity..| |];
    apply (indexed_file_is_self Current "/w" "/w/a.md" "alpha" "a.md"
             (workspace self_disk)
             {| qc_content := "alpha"; qc_title := "a.md";
                qc_absolutePath := Some "/w/a.md" |}
             (workspace self_disk)); vm_compute; reflexivity.
Defined.

Lemma rebuild_reproduces_index_witness :
  buildIndex Current default_build
    (Entries ([FileEnt "a.md"] ++ [FileEnt "b.md"])) (workspace self_disk)
  = (Return tt,
     built_state Current default_build ["/w/a.md"; "/w/b.md"]
       (workspace self_disk))
  ∧ buildIndex Current default_build
      (Entries ([FileEnt "a.md"]
                ++ DirEnt ".similar-files" (Entries [FileEnt "index.json"])
                   :: [FileEnt "b.md"]))
      (built_state Current default_build ["/w/a.md"; "/w/b.md"]
         (workspace self_disk))
    = (Return tt,
       built_state Current default_build ["/w/a.md"; "/w/b.md"]
         (built_state Current default_build ["/w/a.md"; "/w/b.md"]
            (workspace self_disk)))
  ∧ metadata (built_index Current default_build ["/w/a.md"; "/w/b.md"]
                (built_state Current default_build ["/w/a.md"; "/w/b.md"]
                   (workspace self_disk)))
    = metadata (built_index Current default_build ["/w/a.md"; "/w/b.md"]
                  (workspace self_disk))
  ∧ vectors (built_index Current default_build ["/w/a.md"; "/w/b.md"]
               (built_state Current default_build ["/w/a.md"; "/w/b.md"]
                  (workspace self_disk)))
    = vectors (built_index Current default_build ["/w/a.md"; "/w/b.md"]
                 (workspace self_disk))
  ∧ docCount (built_index Current default_build ["/w/a.md"; "/w/b.md"]
                (built_state Current default_build ["/w/a.md"; "/w/b.md"]
                   (workspace self_disk)))
    = docCount (built_index Current default_build ["/w/a.md"; "/w/b.md"]
                  (workspace self_disk)).
Proof.
  split; [vm_compute; reflexivity|].
  apply (rebuild_reproduces_index Current default_build
           [FileEnt "a.md"] [FileEnt "b.md"] (Entries [FileEnt "index.json"])
           ["/w/a.md"; "/w/b.md"] (workspace self_disk)
           (built_state Current default_build ["/w/a.md"; "/w/b.md"]
              (workspace self_disk))
           (built_state Current default_build ["/w/a.md"; "/w/b.md"]
              (workspace self_disk))).
  - vm_compute; reflexivity.
  - vm_compute; reflexivity.
  - vm_compute. intros Hin.
    repeat (apply elem_of_cons in Hin as [Heq|Hin]; [discriminate Heq|]).
    by apply elem_of_nil in Hin.
  - vm_compute. discriminate.
  - reflexivity.
  - reflexivity.
Defined.
